(** * ArxivPaper source resolution ([paper.py]): a shallow embedding

    The development follows [ArxivPaper.tex] and the heads of
    [ArxivPaper.tldr] and [ArxivPaper.affiliations]: reading the
    [.tex] members of a source archive, stripping comments and
    redundant white space, choosing the main document, substituting
    [\input] directives, and cutting out the introduction, the
    conclusion and the region of the authors.  The functions are given
    first on the names and bytes of the members, and then, in
    [Raising], on a tar file with members that cannot be read, where
    [tex] raises.

    Python [str] values are sequences of Unicode code points and are
    modelled as lists of [N]; [bytes] values as lists of [Byte.byte].
    The regular expressions of the source are kept as syntax trees and
    run by a small backtracking matcher that has the priority rules of
    Python's [re] module for the constructs the source uses. *)

From Stdlib Require Import Strings.String Strings.Ascii Strings.Byte.
From Stdlib Require Import List Bool Arith NArith Lia.
Import ListNotations.

Set Implicit Arguments.

(* ================================================================== *)
(** * Text *)
(* ================================================================== *)

Module Text.

Definition char := N.
Definition text := list char.

(** An ASCII literal of the source as a [text]. *)
Definition T (s : String.string) : text :=
  map N_of_ascii (String.list_ascii_of_string s).
Arguments T s%_string.

Definition nl : char := 10%N.
Definition backslash : char := 92%N.
Definition percent : char := 37%N.
Definition rbrace : char := 125%N.

(** [s.startswith(p)] *)
Fixpoint starts_with (p s : text) : bool :=
  match p, s with
  | [], _ => true
  | _ :: _, [] => false
  | a :: p', b :: s' => N.eqb a b && starts_with p' s'
  end.

(** [s.endswith(p)] *)
Definition ends_with (p s : text) : bool := starts_with (rev p) (rev s).

(** [x in l] for a list of strings *)
Fixpoint text_eqb (a b : text) : bool :=
  match a, b with
  | [], [] => true
  | x :: a', y :: b' => N.eqb x y && text_eqb a' b'
  | _, _ => false
  end.

Definition mem (x : text) (l : list text) : bool := existsb (text_eqb x) l.

(** [p in s] for strings: [p] occurs somewhere in [s]. *)
Fixpoint occurs (p s : text) : bool :=
  starts_with p s || match s with [] => false | _ :: s' => occurs p s' end.

(** [s.replace(old, new)].  The scan goes left to right over
    non-overlapping occurrences; text that was put in is not looked at
    again.  [skip] counts the characters of a match still to be passed
    over.  With an empty [old] Python puts [new] before every
    character and at the end. *)
Fixpoint replace_aux (old new : text) (skip : nat) (s : text) : text :=
  match s with
  | [] => []
  | c :: s' =>
      match skip with
      | S n => replace_aux old new n s'
      | O => if starts_with old s
             then new ++ replace_aux old new (length old - 1) s'
             else c :: replace_aux old new 0 s'
      end
  end.

Definition str_replace (old new s : text) : text :=
  match old with
  | [] => new ++ flat_map (fun c => c :: new) s
  | _ :: _ => replace_aux old new 0 s
  end.

(** ["sep".join(l)] on a list of strings *)
Fixpoint join (sep : text) (l : list text) : text :=
  match l with
  | [] => []
  | [x] => x
  | x :: l' => x ++ sep ++ join sep l'
  end.

End Text.
Import Text.

(* ================================================================== *)
(** * Regular expressions *)
(* ================================================================== *)

Module Re.

(** One-character items. [CDot dotall] is [.], which leaves out the
    newline unless the [DOTALL] flag is given. *)
Inductive cclass :=
| CDot (dotall : bool)
| CChr (c : char)
| CSet (cs : list char).

Definition in_class (k : cclass) (c : char) : bool :=
  match k with
  | CDot dotall => dotall || negb (N.eqb c nl)
  | CChr d => N.eqb c d
  | CSet cs => existsb (N.eqb c) cs
  end.

(** The patterns of the source only repeat one-character items, so a
    repetition carries a class: [RRep greedy lo hi k] is [k{lo,hi}],
    lazy when [greedy] is false, unbounded when [hi] is [None]. *)
Inductive regex :=
| RLit (l : text)
| RRep (greedy : bool) (lo : nat) (hi : option nat) (k : cclass)
| REnd
| RSeq (r1 r2 : regex)
| RAlt (r1 r2 : regex).

(** [$] without [MULTILINE]: at the end of the string, or just before
    a newline that ends the string. *)
Definition at_end (s : text) : bool :=
  match s with
  | [] => true
  | [c] => N.eqb c nl
  | _ => false
  end.

Section Matcher.
Variable A : Type.

(** Backtracking repetition, in continuation-passing style: [cont]
    is the rest of the pattern, and the first success in priority
    order is the answer.  A greedy repetition first tries to take
    one more character, a lazy one first tries to stop. *)
Fixpoint rep (greedy : bool) (k : cclass) (lo : nat) (hi : option nat)
         (s : text) (cont : text -> option A) {struct s} : option A :=
  let more :=
    match s with
    | c :: s' =>
        if in_class k c
        then rep greedy k (pred lo) (option_map pred hi) s' cont
        else None
    | [] => None
    end in
  match lo with
  | S _ => more
  | O =>
      match hi with
      | Some O => cont s
      | _ =>
          if greedy
          then match more with Some x => Some x | None => cont s end
          else match cont s with Some x => Some x | None => more end
      end
  end.

Fixpoint run (r : regex) (s : text) (cont : text -> option A) : option A :=
  match r with
  | RLit l => if starts_with l s then cont (skipn (length l) s) else None
  | RRep g lo hi k => rep g k lo hi s cont
  | REnd => if at_end s then cont s else None
  | RSeq a b => run a s (fun s' => run b s' cont)
  | RAlt a b =>
      match run a s cont with
      | Some x => Some x
      | None => run b s cont
      end
  end.
End Matcher.

(** The match of [r] that starts at the head of [s], given by the text
    left after it. *)
Definition match_at (r : regex) (s : text) : option text := run r s (@Some text).

(** Length of the match, from the text left after it. *)
Definition span (s rest : text) : nat := length s - length rest.

(** [re.search(r, s)]: [group(0)] of the leftmost match. *)
Fixpoint search (r : regex) (s : text) : option text :=
  match match_at r s with
  | Some rest => Some (firstn (span s rest) s)
  | None =>
      match s with
      | [] => None
      | _ :: s' => search r s'
      end
  end.

(** [re.sub(r, repl, s)] for a literal [repl].  An empty match puts
    [repl] in and copies the next character. *)
Fixpoint sub_aux (r : regex) (repl : text) (skip : nat) (s : text) : text :=
  match s with
  | [] => match match_at r [] with Some _ => repl | None => [] end
  | c :: s' =>
      match skip with
      | S n => sub_aux r repl n s'
      | O =>
          match match_at r s with
          | Some rest =>
              match span s rest with
              | O => repl ++ c :: sub_aux r repl 0 s'
              | S n => repl ++ sub_aux r repl n s'
              end
          | None => c :: sub_aux r repl 0 s'
          end
      end
  end.

Definition sub (r : regex) (repl s : text) : text := sub_aux r repl 0 s.

(** [re.findall(r, s)] for a pattern without groups: the matches, left
    to right, not overlapping. *)
Fixpoint findall_aux (r : regex) (skip : nat) (s : text) : list text :=
  match s with
  | [] => match match_at r [] with Some _ => [[]] | None => [] end
  | _ :: s' =>
      match skip with
      | S n => findall_aux r n s'
      | O =>
          match match_at r s with
          | Some rest =>
              firstn (span s rest) s :: findall_aux r (pred (span s rest)) s'
          | None => findall_aux r 0 s'
          end
      end
  end.

Definition findall (r : regex) (s : text) : list text := findall_aux r 0 s.

(** [re.findall] for a pattern [lit (group) lit] with one group between
    two literals of [pre] and [post] characters: the group of a match
    is the match without them. *)
Definition findall_group (r : regex) (pre post : nat) (s : text) : list text :=
  map (fun m => firstn (length m - pre - post) (skipn pre m)) (findall r s).

End Re.
Import Re.

(* ================================================================== *)
(** * Decoding: [bytes.decode('utf-8', errors='ignore')] *)
(* ================================================================== *)

Module Utf8.
Local Open Scope N_scope.

Definition is_cont (b : N) : bool := (0x80 <=? b) && (b <? 0xC0).

(** Second bytes that are continuation bytes and still cannot follow
    the lead byte: overlong forms and surrogates after [E0] and [ED],
    overlong forms and code points above [10FFFF] after [F0] and [F4]. *)
Definition bad_second3 (ch ch2 : N) : bool :=
  if ch2 <? 0xA0 then ch =? 0xE0 else ch =? 0xED.

Definition bad_second4 (ch ch2 : N) : bool :=
  if ch2 <? 0x90 then ch =? 0xF0 else ch =? 0xF4.

(** The decoder with the [ignore] error handler.  A wrong start byte
    is passed over alone; a sequence broken by a byte that cannot
    continue it is passed over up to that byte, where decoding starts
    again; a sequence cut by the end of the data is passed over whole.
    Nothing is put in the place of what is passed over. *)
Fixpoint decode_ignore (bs : list byte) : text :=
  match bs with
  | [] => []
  | b0 :: r0 =>
      let ch := Byte.to_N b0 in
      if ch <? 0x80 then ch :: decode_ignore r0
      else if ch <? 0xC2 then decode_ignore r0
      else if ch <? 0xE0 then
        match r0 with
        | [] => []
        | b1 :: r1 =>
            let ch2 := Byte.to_N b1 in
            if is_cont ch2
            then (ch - 0xC0) * 64 + (ch2 - 0x80) :: decode_ignore r1
            else decode_ignore r0
        end
      else if ch <? 0xF0 then
        match r0 with
        | [] => []
        | b1 :: r1 =>
            let ch2 := Byte.to_N b1 in
            if negb (is_cont ch2) || bad_second3 ch ch2 then decode_ignore r0
            else
              match r1 with
              | [] => []
              | b2 :: r2 =>
                  let ch3 := Byte.to_N b2 in
                  if is_cont ch3
                  then (ch - 0xE0) * 4096 + (ch2 - 0x80) * 64 + (ch3 - 0x80)
                       :: decode_ignore r2
                  else decode_ignore r1
              end
        end
      else if ch <? 0xF5 then
        match r0 with
        | [] => []
        | b1 :: r1 =>
            let ch2 := Byte.to_N b1 in
            if negb (is_cont ch2) || bad_second4 ch ch2 then decode_ignore r0
            else
              match r1 with
              | [] => []
              | b2 :: r2 =>
                  let ch3 := Byte.to_N b2 in
                  if negb (is_cont ch3) then decode_ignore r1
                  else
                    match r2 with
                    | [] => []
                    | b3 :: r3 =>
                        let ch4 := Byte.to_N b3 in
                        if is_cont ch4
                        then (ch - 0xF0) * 262144 + (ch2 - 0x80) * 4096
                             + (ch3 - 0x80) * 64 + (ch4 - 0x80)
                             :: decode_ignore r3
                        else decode_ignore r2
                    end
              end
        end
      else decode_ignore r0
  end.



Definition is_ascii (b : byte) : bool := Byte.to_N b <? 0x80.

(** ** UTF-8 as the statements need it *)





(** [subseq a b]: [a] is what is left of [b] when some of its bytes
    are deleted. *)
Fixpoint subseq (a b : list byte) {struct b} : bool :=
  match a, b with
  | [], _ => true
  | _ :: _, [] => false
  | x :: a', y :: b' => if Byte.eqb x y then subseq a' b' else subseq a b'
  end.


End Utf8.
Import Utf8.

(* ================================================================== *)
(** * [ArxivPaper.tex] *)
(* ================================================================== *)

Module Paper.

(** ** Removing comments and redundant white space (lines 112-122) *)

(** [r'%.*\n'] *)
Definition re_line_comment : regex :=
  RSeq (RLit (T "%")) (RSeq (RRep true 0 None (CDot false)) (RLit [nl])).

(** [r'\\begin{comment}.*?\\end{comment}'] with [re.DOTALL] *)
Definition re_comment_block : regex :=
  RSeq (RLit (T "\begin{comment}"))
       (RSeq (RRep false 0 None (CDot true)) (RLit (T "\end{comment}"))).

(** [r'\\iffalse.*?\\fi'] with [re.DOTALL] *)
Definition re_iffalse : regex :=
  RSeq (RLit (T "\iffalse"))
       (RSeq (RRep false 0 None (CDot true)) (RLit (T "\fi"))).

(** [r'\n+'] *)
Definition re_newlines : regex := RRep true 1 None (CChr nl).

(** [r'\\\\'] *)
Definition re_linebreak : regex := RLit (T "\\").

(** [r'[ \t\r\f]{3,}'] *)
Definition re_spaces : regex :=
  RRep true 3 None (CSet [32; 9; 13; 12]%N).

Definition remove_line_comments (content : text) : text :=
  sub re_line_comment [nl] content.
Definition remove_comment_blocks (content : text) : text :=
  sub re_comment_block [] content.
Definition remove_iffalse (content : text) : text :=
  sub re_iffalse [] content.
Definition collapse_newlines (content : text) : text :=
  sub re_newlines [nl] content.
Definition remove_linebreaks (content : text) : text :=
  sub re_linebreak [] content.
Definition collapse_spaces (content : text) : text :=
  sub re_spaces (T " ") content.

(** The six substitutions applied to the content of one file. *)
Definition strip (content : text) : text :=
  collapse_spaces
    (remove_linebreaks
       (collapse_newlines
          (remove_iffalse
             (remove_comment_blocks
                (remove_line_comments content))))).

(** ** The archive *)

(** A member of the tar file: its name and the bytes that
    [tar.extractfile(name).read()] gives, in the order of the archive.
    In an [archive] every member that is read can be read; members
    for which [extractfile] gives no file object are in [Raising],
    after the head of [affiliations]. *)
Record member := Member { name : text; data : list byte }.

Definition archive := list member.

(** [tar.getnames()] *)
Definition getnames (tar : archive) : list text := map name tar.

(** [tar.extractfile(t).read()] where [extractfile] gives a file
    object: a name stands for the last member that carries it.  Every
    name asked for comes from [getnames], so the lookup never fails;
    see [read_member_found].  What happens when [extractfile] gives
    no file object is in [Raising.read_one]. *)
Definition read (tar : archive) (t : text) : list byte :=
  match find (fun m => text_eqb (name m) t) (rev tar) with
  | Some m => data m
  | None => []
  end.

(** ** The dictionary [file_contents] *)

(** Keys in insertion order; a value is a string or [None]. *)
Definition dict := list (text * option text).

(** [d[k] = v] *)
Fixpoint dict_set (d : dict) (k : text) (v : option text) : dict :=
  match d with
  | [] => [(k, v)]
  | (k', v') :: d' =>
      if text_eqb k' k then (k', v) :: d' else (k', v') :: dict_set d' k v
  end.

(** The entry of [k], if [k] is a key. *)
Fixpoint dict_get (d : dict) (k : text) : option (option text) :=
  match d with
  | [] => None
  | (k', v') :: d' => if text_eqb k' k then Some v' else dict_get d' k
  end.

(** [d.get(k, '')] and [d[k]] where the values are strings. *)
Definition get_str (d : dict) (k : text) : text :=
  match dict_get d k with
  | Some (Some v) => v
  | _ => []
  end.

(** [d.get(k)] *)
Definition get (d : dict) (k : text) : option text :=
  match dict_get d k with
  | Some v => v
  | None => None
  end.

Definition keys (d : dict) : list text := map fst d.
Definition values (d : dict) : list (option text) := map snd d.

(** ** Choosing the main file from the names (lines 78-103) *)

Definition tex_files_of (tar : archive) : list text :=
  filter (ends_with (T ".tex")) (getnames tar).

Definition bbl_file_of (tar : archive) : list text :=
  filter (ends_with (T ".bbl")) (getnames tar).

(** [bbl_file[0].replace('.bbl', '')] followed by [.tex] *)
Definition candidate (bbl : text) : text :=
  str_replace (T ".bbl") [] bbl ++ T ".tex".

Definition main_tex_of_names (tex_files bbl_file : list text) : option text :=
  match bbl_file with
  | [] => if 1 <? length tex_files then None else hd_error tex_files
  | [b] =>
      let main_tex := candidate b in
      if mem main_tex tex_files then Some main_tex else None
  | _ => None
  end.

(** ** Reading the files (lines 108-127) *)

(** [r'\\begin\{document\}'] *)
Definition re_begin_document : regex := RLit (T "\begin{document}").

Definition has_document_block (content : text) : bool :=
  match search re_begin_document content with Some _ => true | None => false end.

(** One turn of the loop over [tex_files]: the state is [main_tex] and
    [file_contents]. *)
Definition read_one (tar : archive) (st : option text * dict) (t : text)
  : option text * dict :=
  let content := strip (decode_ignore (read tar t)) in
  let main_tex :=
    match fst st with
    | None => if has_document_block content then Some t else None
    | Some m => Some m
    end in
  (main_tex, dict_set (snd st) t (Some content)).

Definition read_all (tar : archive) (tex_files : list text)
           (main_tex : option text) : option text * dict :=
  fold_left (read_one tar) tex_files (main_tex, []).

(** ** Substituting the included files (lines 129-141) *)

(** [r'\\input\{(.+?)\}'] and [r'\\include\{(.+?)\}'] *)
Definition re_input : regex :=
  RSeq (RLit (T "\input{")) (RSeq (RRep false 1 None (CDot false)) (RLit (T "}"))).

Definition re_include : regex :=
  RSeq (RLit (T "\include{")) (RSeq (RRep false 1 None (CDot false)) (RLit (T "}"))).

Definition include_files (main_source : text) : list text :=
  findall_group re_input 7 1 main_source
  ++ findall_group re_include 9 1 main_source.

Definition file_name_of (f : text) : text :=
  if ends_with (T ".tex") f then f else f ++ T ".tex".

(** The literal [f'\\input{{{f}}}'] *)
Definition input_marker (f : text) : text := T "\input{" ++ f ++ T "}".

(** One turn of the loop over [include_files]. *)
Definition substitute (file_contents : dict) (main_source f : text) : text :=
  str_replace (input_marker f) (get_str file_contents (file_name_of f)) main_source.

Definition flatten (file_contents : dict) (main_source : text) : text :=
  fold_left (substitute file_contents) (include_files main_source) main_source.

(** ** The property [tex] *)

(** The argument is the downloaded file as [tarfile.open] sees it:
    [None] when it is not a tar file ([tarfile.ReadError]). *)
Definition tex (file : option archive) : option dict :=
  match file with
  | None => None
  | Some tar =>
      let tex_files := tex_files_of tar in
      if length tex_files =? 0 then None
      else
        let bbl_file := bbl_file_of tar in
        let main_tex := main_tex_of_names tex_files bbl_file in
        let st := read_all tar tex_files main_tex in
        let file_contents := snd st in
        match fst st with
        | Some m =>
            let main_source := get_str file_contents m in
            Some (dict_set file_contents (T "all")
                           (Some (flatten file_contents main_source)))
        | None => Some (dict_set file_contents (T "all") None)
        end
  end.

(** The main file that [tex] settles on, kept for the statements. *)
Definition main_tex_of (tar : archive) : option text :=
  fst (read_all tar (tex_files_of tar)
                (main_tex_of_names (tex_files_of tar) (bbl_file_of tar))).

(** ** The head of [tldr] (lines 150-173) *)

(** A value, or the exception that ends the call. *)
Inductive result (A : Type) :=
| Ok (a : A)
| TypeError
| AttributeError
| KeyError.
Arguments Ok {A} a.
Arguments TypeError {A}.
Arguments AttributeError {A}.
Arguments KeyError {A}.

(** ["\n".join(values)]: every item has to be a string. *)
Fixpoint all_str (l : list (option text)) : option (list text) :=
  match l with
  | [] => Some []
  | Some x :: l' => option_map (cons x) (all_str l')
  | None :: _ => None
  end.

Definition join_values (sep : text) (l : list (option text)) : result text :=
  match all_str l with
  | Some xs => Ok (join sep xs)
  | None => TypeError
  end.

(** [r'~?\\cite.?\{.*?\}'] *)
Definition re_cite : regex :=
  RSeq (RRep true 0 (Some 1) (CChr 126%N))
    (RSeq (RLit (T "\cite"))
       (RSeq (RRep true 0 (Some 1) (CDot false))
          (RSeq (RLit (T "{"))
             (RSeq (RRep false 0 None (CDot false)) (RLit (T "}")))))).

(** [r'\\begin\{figure\}.*?\\end\{figure\}'] with [re.DOTALL] *)
Definition re_figure : regex :=
  RSeq (RLit (T "\begin{figure}"))
       (RSeq (RRep false 0 None (CDot true)) (RLit (T "\end{figure}"))).

(** [r'\\begin\{table\}.*?\\end\{table\}'] with [re.DOTALL] *)
Definition re_table : regex :=
  RSeq (RLit (T "\begin{table}"))
       (RSeq (RRep false 0 None (CDot true)) (RLit (T "\end{table}"))).

(** [(\\section|\\end\{document\}|\\bibliography|\\appendix|$)] *)
Definition re_end_word : regex :=
  RAlt (RLit (T "\section"))
    (RAlt (RLit (T "\end{document}"))
       (RAlt (RLit (T "\bibliography"))
          (RAlt (RLit (T "\appendix")) REnd))).

(** [r'\\section\{Introduction\}.*?(...)'] and the same for
    [Conclusion], both with [re.DOTALL]. *)
Definition re_section (heading : text) : regex :=
  RSeq (RLit heading) (RSeq (RRep false 0 None (CDot true)) re_end_word).

Definition heading_introduction : text := T "\section{Introduction}".
Definition heading_conclusion : text := T "\section{Conclusion}".

(** [match.group(0)] when there is a match, the initial [""] otherwise. *)
Definition find_section (heading content : text) : text :=
  match search (re_section heading) content with
  | Some m => m
  | None => []
  end.

Definition remove_cite_figure_table (content : text) : text :=
  sub re_table [] (sub re_figure [] (sub re_cite [] content)).

(** [introduction] and [conclusion] from the text handed over. *)
Definition extract_sections (content : text) : text * text :=
  let content := remove_cite_figure_table content in
  (find_section heading_introduction content,
   find_section heading_conclusion content).

(** The text that [tldr] works on: the entry [all], or the values
    joined by newlines when that entry is [None]. *)
Definition tldr_content (d : dict) : result text :=
  match get d (T "all") with
  | Some content => Ok content
  | None => join_values [nl] (values d)
  end.

(** [(introduction, conclusion)] as [tldr] computes them from
    [self.tex]. *)
Definition tldr_sections (tex : option dict) : result (text * text) :=
  match tex with
  | None => Ok ([], [])
  | Some d =>
      match tldr_content d with
      | Ok content => Ok (extract_sections content)
      | TypeError => TypeError
      | AttributeError => AttributeError
      | KeyError => KeyError
      end
  end.

End Paper.
Import Paper.

(* ================================================================== *)
(** * Notions used in the statements *)
(* ================================================================== *)

(** [diverge p b]: [p] and [b] differ at a place both have, so [p]
    is not at the head of [b] whatever comes after [b]. *)
Fixpoint diverge (p b : text) : bool :=
  match p, b with
  | a :: p', c :: b' => negb (N.eqb a c) || diverge p' b'
  | _, _ => false
  end.

(** [clean p x]: [p] starts at no place of [x], whatever comes after
    [x].  A text is clean for [p] when [p] does not occur in it and it
    does not end with the beginning of [p]. *)
Fixpoint clean (p x : text) : bool :=
  match x with
  | [] => true
  | _ :: x' => diverge p x && clean p x'
  end.

(** The stripped and decoded content of the member named [t]. *)
Definition content_of (tar : archive) (t : text) : text :=
  strip (decode_ignore (read tar t)).


(** ** Sample archives *)

Definition file_of (n c : String.string) : member :=
  Member (T n) (map byte_of_ascii (String.list_ascii_of_string c)).
Arguments file_of (n c)%_string.

(** Two [.tex] files, no [.bbl] file, no document block. *)
Definition two_fragments : archive :=
  [file_of "a.tex" "hello"; file_of "b.tex" "world"].

(** A [.bbl] file whose name has [.bbl] twice, next to the [.tex] file
    of the same stem and a file with a document block. *)
Definition double_bbl : archive :=
  [file_of "b.tex" "\begin{document}x\end{document}";
   file_of "a.bbl.tex" "y";
   file_of "a.bbl.bbl" ""].

(** The same [.bbl] file next to [a.tex]. *)
Definition double_bbl_short : archive :=
  [file_of "a.tex" "x"; file_of "a.bbl.bbl" ""].

(** A main file with its bibliography and two more [.tex] files. *)
Definition with_bbl : archive :=
  [file_of "intro.tex" "\begin{document}i";
   file_of "main.tex" "m";
   file_of "main.bbl" "";
   file_of "more.tex" "o"].

Definition dot : char := 46%N.

(** ** Words that end a section *)

(** The literal alternatives of [re_end_word]. *)
Definition end_words : list text :=
  [T "\section"; T "\end{document}"; T "\bibliography"; T "\appendix"].

(** No end word starts inside [body]. *)
Definition no_end_word (body : text) : bool :=
  forallb (fun w => clean w body) end_words.

(** ** A main file as text and [\input] markers *)

(** A piece of a main file: text, or the marker [\input{n}]. *)
Inductive item :=
| Text (t : text)
| Marker (n : text).

Definition item_text (i : item) : text :=
  match i with
  | Text t => t
  | Marker n => input_marker n
  end.

Definition render (items : list item) : text := concat (map item_text items).

Definition marker_names (items : list item) : list text :=
  flat_map (fun i => match i with Text _ => [] | Marker n => [n] end) items.

(** A name as it is written between the braces of a marker: not
    empty, without closing brace, newline or backslash. *)
Definition good_name (n : text) : bool :=
  match n with
  | [] => false
  | _ :: _ =>
      forallb (fun c => negb (N.eqb c rbrace) && negb (N.eqb c nl)
                        && negb (N.eqb c backslash)) n
  end.

(** The texts of a main file are clean for [\input{], so that its
    markers are the only places where [\input{] starts. *)
Definition item_ok (i : item) : bool :=
  match i with
  | Text t => clean (T "\input{") t
  | Marker n => good_name n
  end.

(** What a piece becomes once the files are put in. *)
Definition expand (d : dict) (i : item) : text :=
  match i with
  | Text t => t
  | Marker n => get_str d (file_name_of n)
  end.

(** One substitution seen on the pieces. *)
Definition subst_item (x c : text) (i : item) : item :=
  match i with
  | Text t => Text t
  | Marker n => if text_eqb n x then Text c else Marker n
  end.

(** What [.+?] followed by a closing brace can capture: after its
    first character there is no closing brace. *)
Definition tail_ok (x : text) : bool :=
  forallb (fun c => negb (N.eqb c rbrace)) (tl x).

(** ** Sample archives with included files *)





(** The dictionary of an archive that has [.tex] members. *)
Definition tex_of (tar : archive) : dict :=
  match tex (Some tar) with
  | Some d => d
  | None => []
  end.

(** ** Runs of one class of characters *)

Definition all_in (K : cclass) (w : text) : bool := forallb (in_class K) w.

(** The text is empty or begins with a character outside [K]. *)
Definition starts_out (K : cclass) (s : text) : bool :=
  match s with
  | [] => true
  | c :: _ => negb (in_class K c)
  end.

Definition has_nl (s : text) : bool := existsb (N.eqb nl) s.

(** No [%] has a newline somewhere after it: [remove_line_comments]
    finds nothing to remove. *)
Fixpoint comment_free (s : text) : bool :=
  match s with
  | [] => true
  | c :: s' => (negb (N.eqb c percent) || negb (has_nl s')) && comment_free s'
  end.

(** No two newlines in a row. *)
Fixpoint single_nl (s : text) : bool :=
  match s with
  | [] => true
  | c :: s' =>
      negb (N.eqb c nl && negb (starts_out (CChr nl) s')) && single_nl s'
  end.

(** The class of [re_spaces]. *)
Definition spaces : cclass := CSet [32; 9; 13; 12]%N.

(* ================================================================== *)
(** * [arxiv_id] and the head of [affiliations] *)
(* ================================================================== *)

Module PaperRest.

(** ** [arxiv_id] (lines 32-34) *)

(** [r'v\d+$'].  In a pattern on [str], [\d] is any Unicode decimal
    digit; the list of those characters is a parameter. *)
Definition re_version (digits : list char) : regex :=
  RSeq (RLit (T "v")) (RSeq (RRep true 1 None (CSet digits)) REnd).

(** [re.sub(r'v\d+$', '', short_id)] *)
Definition arxiv_id (digits : list char) (short_id : text) : text :=
  sub (re_version digits) [] short_id.

(** ** The head of [affiliations] (lines 206-222) *)

(** A pattern [open.*?close] with [re.DOTALL]. *)
Definition block (open close : text) : regex :=
  RSeq (RLit open) (RSeq (RRep false 0 None (CDot true)) (RLit close)).

(** [r'\\author.*?\\maketitle'] and
    [r'\\begin{document}.*?\\begin{abstract}'] *)
Definition possible_regions : list regex :=
  [block (T "\author") (T "\maketitle");
   block (T "\begin{document}") (T "\begin{abstract}")].

(** [next((m for m in matches if m), None)] and [group(0)]: the match
    of the first pattern that has one. *)
Fixpoint first_match (patterns : list regex) (content : text) : option text :=
  match patterns with
  | [] => None
  | p :: patterns' =>
      match search p content with
      | Some m => Some m
      | None => first_match patterns' content
      end
  end.

Definition information_region (content : text) : option text :=
  first_match possible_regions content.

(** What [affiliations] does before it asks the language model: the
    text is chosen as in [tldr]; the result is the region handed to
    the model, or [None] when the function returns [None] (no source,
    or no region). *)
Definition affiliations_region (tex : option dict) : result (option text) :=
  match tex with
  | None => Ok None
  | Some d =>
      match tldr_content d with
      | Ok content => Ok (information_region content)
      | TypeError => TypeError
      | AttributeError => AttributeError
      | KeyError => KeyError
      end
  end.

End PaperRest.
Import PaperRest.

(* ================================================================== *)
(** * Members that cannot be read *)
(* ================================================================== *)

Module Raising.

(** What [tar.extractfile(name)] does for a member: it returns a file
    object that reads the bytes (a regular file, or a link to one), it
    returns [None] (a directory, a FIFO, a device), or it raises
    [KeyError] (a link whose target is not in the archive). *)
Inductive extracted :=
| FileObject (bytes : list byte)
| NoObject
| NoTarget.

Record tarinfo := TarInfo { info_name : text; info_file : extracted }.

(** The tar file as [tarfile.open] gives it: the members of all
    kinds, in the order of the archive. *)
Definition tarfile := list tarinfo.

Definition bytes_of (x : extracted) : list byte :=
  match x with
  | FileObject bytes => bytes
  | _ => []
  end.

(** The names and the bytes, as [tar.getnames()] and the members that
    can be read give them. *)
Definition members (tf : tarfile) : archive :=
  map (fun i => Member (info_name i) (bytes_of (info_file i))) tf.

(** Exceptions go through the calls that follow. *)
Definition bind (A B : Type) (r : result A) (f : A -> result B) : result B :=
  match r with
  | Ok a => f a
  | TypeError => TypeError
  | AttributeError => AttributeError
  | KeyError => KeyError
  end.

(** [tar.extractfile(t)]: a name stands for the last member that
    carries it. *)
Definition extractfile (tf : tarfile) (t : text)
  : result (option (list byte)) :=
  match find (fun i => text_eqb (info_name i) t) (rev tf) with
  | Some i =>
      match info_file i with
      | FileObject bytes => Ok (Some bytes)
      | NoObject => Ok None
      | NoTarget => KeyError
      end
  | None => KeyError
  end.

(** One turn of the loop over [tex_files] (lines 109-127):
    [f.read()] raises [AttributeError] when [f] is [None]. *)
Definition read_one (tf : tarfile) (st : option text * dict) (t : text)
  : result (option text * dict) :=
  bind (extractfile tf t) (fun f =>
    match f with
    | None => AttributeError
    | Some bytes =>
        let content := strip (decode_ignore bytes) in
        let main_tex :=
          match fst st with
          | None => if has_document_block content then Some t else None
          | Some m => Some m
          end in
        Ok (main_tex, dict_set (snd st) t (Some content))
    end).

Fixpoint read_from (tf : tarfile) (tex_files : list text)
         (st : option text * dict) : result (option text * dict) :=
  match tex_files with
  | [] => Ok st
  | t :: tex_files' =>
      bind (read_one tf st t) (read_from tf tex_files')
  end.

Definition read_all (tf : tarfile) (tex_files : list text)
           (main_tex : option text) : result (option text * dict) :=
  read_from tf tex_files (main_tex, []).

(** The property [tex] on a tar file with members of all kinds. *)
Definition tex (file : option tarfile) : result (option dict) :=
  match file with
  | None => Ok None
  | Some tf =>
      let tex_files := tex_files_of (members tf) in
      if length tex_files =? 0 then Ok None
      else
        let bbl_file := bbl_file_of (members tf) in
        let main_tex := main_tex_of_names tex_files bbl_file in
        bind (read_all tf tex_files main_tex) (fun st =>
          let file_contents := snd st in
          match fst st with
          | Some m =>
              let main_source := get_str file_contents m in
              Ok (Some (dict_set file_contents (T "all")
                                 (Some (flatten file_contents main_source))))
          | None => Ok (Some (dict_set file_contents (T "all") None))
          end)
  end.

(** The heads of [tldr] and of [affiliations]: what [self.tex] raises
    goes through them. *)
Definition tldr_sections (file : option tarfile) : result (text * text) :=
  bind (tex file) Paper.tldr_sections.

Definition affiliations_region (file : option tarfile)
  : result (option text) :=
  bind (tex file) PaperRest.affiliations_region.

End Raising.

(** Every [.tex] member can be read. *)
Definition readable (tf : Raising.tarfile) : bool :=
  forallb (fun t => match Raising.extractfile tf t with
                    | Ok (Some _) => true
                    | _ => false
                    end)
          (tex_files_of (Raising.members tf)).

(** A tar file of regular files. *)
Definition regular (tar : archive) : Raising.tarfile :=
  map (fun m => Raising.TarInfo (name m) (Raising.FileObject (data m))) tar.



(** ** More notions for the statements *)

(** [n] characters of [K] stand at the head of [s]. *)
Definition starts_run (K : cclass) (n : nat) (s : text) : bool :=
  (n <=? length s) && all_in K (firstn n s).

(** Nowhere in [s] are there [n] characters of [K] in a row. *)
Fixpoint no_run (K : cclass) (n : nat) (s : text) : bool :=
  match s with
  | [] => true
  | _ :: s' => negb (starts_run K n s) && no_run K n s'
  end.

(** The ASCII digits, a part of every table of decimal digits. *)
Definition ascii_digits : list char := T "0123456789".

Definition letter_v : char := 118%N.

(** Keys in the order of their first occurrence. *)
Fixpoint first_occurrences (seen l : list text) : list text :=
  match l with
  | [] => []
  | x :: l' =>
      if mem x seen then first_occurrences seen l'
      else x :: first_occurrences (seen ++ [x]) l'
  end.

(** A [.tex] file with a document block after a file without one. *)
Definition scan_archive : archive :=
  [file_of "a.tex" "fragment";
   file_of "b.tex" "\begin{document}b\end{document}";
   file_of "c.tex" "\begin{document}c\end{document}";
   file_of "x.bbl" "";
   file_of "y.bbl" ""].

(** A main file with an [\include] directive for a file of the archive. *)
Definition with_include : archive :=
  [file_of "main.tex" "\begin{document}\include{sec}\end{document}";
   file_of "sec.tex" "S"].

(** One [.tex] file and nothing else that counts. *)
Definition single_tex : archive :=
  [file_of "readme.txt" "r"; file_of "paper.tex" "text \input{gone} more"].

(* ================================================================== *)
(** * Facts about texts *)
(* ================================================================== *)

Section TextFacts.

Lemma starts_with_app (p s : text) : starts_with p (p ++ s) = true.
Proof.
  induction p as [|a p IH]; simpl; [reflexivity|].
  now rewrite N.eqb_refl, IH.
Qed.

Lemma starts_with_true (p s : text) :
  starts_with p s = true -> exists r, s = p ++ r.
Proof.
  revert s; induction p as [|a p IH]; intros s H; simpl in *.
  - now exists s.
  - destruct s as [|b s]; [discriminate|].
    apply andb_true_iff in H as [E H].
    apply N.eqb_eq in E; subst b.
    destruct (IH _ H) as [r ->]. now exists r.
Qed.

Lemma starts_with_nil_r (p : text) : p <> [] -> starts_with p [] = false.
Proof. destruct p; [congruence | reflexivity]. Qed.

Lemma starts_with_head (p s : text) (a b : char) :
  a <> b -> starts_with (a :: p) (b :: s) = false.
Proof. intros H; simpl. apply N.eqb_neq in H. now rewrite H. Qed.

Lemma text_eqb_refl (a : text) : text_eqb a a = true.
Proof. induction a; simpl; [reflexivity|]. now rewrite N.eqb_refl. Qed.

Lemma text_eqb_eq (a b : text) : text_eqb a b = true <-> a = b.
Proof.
  split; [|intros ->; apply text_eqb_refl].
  revert b; induction a as [|x a IH]; destruct b as [|y b]; simpl;
    try discriminate; [reflexivity|].
  intros H. apply andb_true_iff in H as [E H].
  apply N.eqb_eq in E. f_equal; auto.
Qed.

Lemma text_eqb_neq (a b : text) : text_eqb a b = false <-> a <> b.
Proof.
  split.
  - intros H E. apply text_eqb_eq in E. congruence.
  - intros H. destruct (text_eqb a b) eqn:E; [|reflexivity].
    apply text_eqb_eq in E. contradiction.
Qed.

Lemma mem_In (x : text) (l : list text) : mem x l = true <-> In x l.
Proof.
  unfold mem. rewrite existsb_exists. split.
  - intros [y [Hy E]]. apply text_eqb_eq in E. now subst.
  - intros H. exists x. split; [assumption | apply text_eqb_refl].
Qed.

Lemma ends_with_app (p s : text) : ends_with p (s ++ p) = true.
Proof. unfold ends_with. rewrite rev_app_distr. apply starts_with_app. Qed.


Lemma skipn_length_app (p s : text) : skipn (length p) (p ++ s) = s.
Proof. induction p; simpl; auto. Qed.

Lemma firstn_length_app (p s : text) : firstn (length p) (p ++ s) = p.
Proof. induction p; simpl; [now destruct s | now f_equal]. Qed.

(** ** Places where a pattern cannot start *)

Lemma diverge_starts_with (p b r : text) :
  diverge p b = true -> starts_with p (b ++ r) = false.
Proof.
  revert b; induction p as [|a p IH]; intros [|c b] H; simpl in *;
    try discriminate.
  destruct (N.eqb a c); simpl in *; [auto | reflexivity].
Qed.



Lemma clean_no_head (a : char) (p x : text) :
  ~ In a x -> clean (a :: p) x = true.
Proof.
  induction x as [|c x IH]; simpl; intros H; [reflexivity|].
  assert (E : N.eqb a c = false) by (apply N.eqb_neq; intuition congruence).
  rewrite E. simpl. apply IH. tauto.
Qed.


Lemma occurs_app_clean (p x y : text) :
  clean p x = true -> occurs p (x ++ y) = occurs p y.
Proof.
  induction x as [|c x IH]; intros H; [reflexivity|].
  simpl in H. apply andb_true_iff in H as [Hd H].
  change ((c :: x) ++ y) with (c :: (x ++ y)).
  cbn [occurs]. rewrite IH by assumption.
  change (c :: (x ++ y)) with ((c :: x) ++ y).
  rewrite (diverge_starts_with _ _ y Hd).
  destruct y; reflexivity.
Qed.

(** ** [str.replace] *)

Lemma replace_aux_skip (old new : text) (n : nat) (s : text) :
  replace_aux old new n s = replace_aux old new 0 (skipn n s).
Proof.
  revert n; induction s as [|c s IH]; intros [|n]; try reflexivity.
  simpl. apply IH.
Qed.

Lemma replace_aux_match (old new rest : text) :
  old <> [] ->
  replace_aux old new 0 (old ++ rest) = new ++ replace_aux old new 0 rest.
Proof.
  intros H. destruct old as [|a old]; [congruence|].
  change ((a :: old) ++ rest) with (a :: (old ++ rest)).
  cbn [replace_aux].
  change (a :: (old ++ rest)) with ((a :: old) ++ rest).
  rewrite starts_with_app. f_equal.
  rewrite replace_aux_skip. simpl. rewrite Nat.sub_0_r.
  now rewrite skipn_length_app.
Qed.

Lemma replace_aux_clean (old new pre rest : text) :
  clean old pre = true ->
  replace_aux old new 0 (pre ++ rest) = pre ++ replace_aux old new 0 rest.
Proof.
  induction pre as [|c pre IH]; intros H; [reflexivity|].
  simpl in H. apply andb_true_iff in H as [Hd H].
  change ((c :: pre) ++ rest) with (c :: (pre ++ rest)).
  cbn [replace_aux].
  change (c :: (pre ++ rest)) with ((c :: pre) ++ rest).
  rewrite (diverge_starts_with _ _ rest Hd).
  simpl. f_equal. now apply IH.
Qed.

Lemma replace_aux_nil (old new : text) : replace_aux old new 0 [] = [].
Proof. reflexivity. Qed.

End TextFacts.

(* ================================================================== *)
(** * Facts about the matcher *)
(* ================================================================== *)

Section MatcherFacts.

Lemma rep_nil (A : Type) g k lo hi (cont : text -> option A) :
  rep g k lo hi [] cont = match lo with S _ => None | O => cont [] end.
Proof.
  destruct lo; [|reflexivity]. simpl.
  destruct hi as [[|h]|]; destruct g; try reflexivity;
    now destruct (cont []).
Qed.

(** What a successful run hands to its continuation is a suffix of the
    text it was started on. *)
Lemma rep_suffix (A : Type) g k (s : text) :
  forall lo hi (cont : text -> option A) x,
    rep g k lo hi s cont = Some x ->
    exists pre rest, s = pre ++ rest /\ cont rest = Some x.
Proof.
  induction s as [|c s IH]; intros lo hi cont x H.
  - rewrite rep_nil in H. destruct lo; [|discriminate].
    now exists [], [].
  - assert (More : forall lo' hi',
               (if in_class k c then rep g k lo' hi' s cont else None) = Some x ->
               exists pre rest, c :: s = pre ++ rest /\ cont rest = Some x).
    { intros lo' hi' E. destruct (in_class k c); [|discriminate].
      destruct (IH _ _ _ _ E) as (pre & rest & -> & Hc).
      now exists (c :: pre), rest. }
    assert (Stop : cont (c :: s) = Some x ->
               exists pre rest, c :: s = pre ++ rest /\ cont rest = Some x).
    { intros E. now exists [], (c :: s). }
    simpl in H. destruct lo as [|lo]; [|eauto].
    destruct hi as [[|h]|]; [eauto| |].
    + destruct g.
      * destruct (if in_class k c then _ else None) eqn:E in H.
        -- injection H as <-. eauto.
        -- eauto.
      * destruct (cont (c :: s)) eqn:E.
        -- injection H as <-. eauto.
        -- eauto.
    + destruct g.
      * destruct (if in_class k c then _ else None) eqn:E in H.
        -- injection H as <-. eauto.
        -- eauto.
      * destruct (cont (c :: s)) eqn:E.
        -- injection H as <-. eauto.
        -- eauto.
Qed.

Lemma run_suffix (A : Type) (r : regex) :
  forall (s : text) (cont : text -> option A) x,
    run r s cont = Some x ->
    exists pre rest, s = pre ++ rest /\ cont rest = Some x.
Proof.
  induction r as [l|g lo hi k| |a IHa b IHb|a IHa b IHb]; intros s cont x H;
    simpl in H.
  - destruct (starts_with l s) eqn:E; [|discriminate].
    apply starts_with_true in E as [r ->].
    rewrite skipn_length_app in H. now exists l, r.
  - eapply rep_suffix; eassumption.
  - destruct (at_end s); [|discriminate]. now exists [], s.
  - apply IHa in H as (p1 & r1 & -> & H).
    apply IHb in H as (p2 & r2 & -> & H).
    exists (p1 ++ p2), r2. now rewrite app_assoc.
  - destruct (run a s cont) eqn:E.
    + injection H as <-. eauto.
    + eauto.
Qed.

Lemma match_at_suffix (r : regex) (s rest : text) :
  match_at r s = Some rest -> exists pre, s = pre ++ rest.
Proof.
  intros H. apply run_suffix in H as (pre & rest' & -> & E).
  injection E as ->. now exists pre.
Qed.

Lemma span_app (pre rest : text) : span (pre ++ rest) rest = length pre.
Proof. unfold span. rewrite length_app. lia. Qed.

(** ** Unfolding [sub], [search] and [findall] one match at a time *)

Lemma sub_aux_skip (r : regex) (repl : text) (n : nat) (s : text) :
  sub_aux r repl n s = sub_aux r repl 0 (skipn n s).
Proof.
  revert n; induction s as [|c s IH]; intros [|n]; try reflexivity.
  simpl. apply IH.
Qed.

Lemma sub_nil (r : regex) (repl : text) :
  match_at r [] = None -> sub r repl [] = [].
Proof. unfold sub; simpl. now intros ->. Qed.

Lemma sub_nomatch (r : regex) (repl : text) (c : char) (s : text) :
  match_at r (c :: s) = None -> sub r repl (c :: s) = c :: sub r repl s.
Proof. unfold sub; simpl. now intros ->. Qed.

Lemma sub_match (r : regex) (repl pre rest : text) :
  pre <> [] -> match_at r (pre ++ rest) = Some rest ->
  sub r repl (pre ++ rest) = repl ++ sub r repl rest.
Proof.
  intros Hp H. destruct pre as [|c pre]; [congruence|].
  unfold sub. change ((c :: pre) ++ rest) with (c :: (pre ++ rest)) in *.
  cbn [sub_aux]. rewrite H.
  change (c :: (pre ++ rest)) with ((c :: pre) ++ rest).
  rewrite span_app. cbn [length]. f_equal.
  rewrite sub_aux_skip. now rewrite skipn_length_app.
Qed.

Lemma search_nomatch (r : regex) (c : char) (s : text) :
  match_at r (c :: s) = None -> search r (c :: s) = search r s.
Proof. simpl. now intros ->. Qed.

Lemma search_match (r : regex) (pre rest : text) :
  match_at r (pre ++ rest) = Some rest -> search r (pre ++ rest) = Some pre.
Proof.
  intros H.
  assert (U : forall s, search r s =
                match match_at r s with
                | Some rest' => Some (firstn (span s rest') s)
                | None => match s with [] => None | _ :: s' => search r s' end
                end) by (now intros []).
  rewrite U, H, span_app, firstn_length_app. reflexivity.
Qed.

Lemma findall_aux_skip (r : regex) (n : nat) (s : text) :
  findall_aux r n s = findall_aux r 0 (skipn n s).
Proof.
  revert n; induction s as [|c s IH]; intros [|n]; try reflexivity.
  simpl. apply IH.
Qed.

Lemma findall_nil (r : regex) : match_at r [] = None -> findall r [] = [].
Proof. unfold findall; simpl. now intros ->. Qed.

Lemma findall_nomatch (r : regex) (c : char) (s : text) :
  match_at r (c :: s) = None -> findall r (c :: s) = findall r s.
Proof. unfold findall; simpl. now intros ->. Qed.

Lemma findall_match (r : regex) (pre rest : text) :
  pre <> [] -> match_at r (pre ++ rest) = Some rest ->
  findall r (pre ++ rest) = pre :: findall r rest.
Proof.
  intros Hp H. destruct pre as [|c pre]; [congruence|].
  unfold findall. change ((c :: pre) ++ rest) with (c :: (pre ++ rest)) in *.
  cbn [findall_aux]. rewrite H.
  change (c :: (pre ++ rest)) with ((c :: pre) ++ rest).
  rewrite span_app, firstn_length_app. cbn [length pred]. f_equal.
  rewrite findall_aux_skip. now rewrite skipn_length_app.
Qed.

(** ** Patterns that begin with a literal *)

Lemma match_at_lit_fail (l : text) (r : regex) (s : text) :
  starts_with l s = false -> match_at (RSeq (RLit l) r) s = None.
Proof. unfold match_at; simpl. now intros ->. Qed.

Lemma match_at_lit_only_fail (l s : text) :
  starts_with l s = false -> match_at (RLit l) s = None.
Proof. unfold match_at; simpl. now intros ->. Qed.

(** A pattern that begins with the literal [l] leaves alone a stretch
    of text that is clean for [l]. *)
Lemma sub_clean_prefix (l : text) (r : regex) (repl pre rest : text) :
  clean l pre = true ->
  sub (RSeq (RLit l) r) repl (pre ++ rest) = pre ++ sub (RSeq (RLit l) r) repl rest.
Proof.
  induction pre as [|c pre IH]; intros H; [reflexivity|].
  cbn [clean] in H. apply andb_true_iff in H as [Hd H].
  change ((c :: pre) ++ rest) with (c :: (pre ++ rest)).
  rewrite sub_nomatch.
  - now rewrite IH.
  - apply match_at_lit_fail.
    apply (diverge_starts_with _ _ rest Hd).
Qed.

Lemma sub_clean (l : text) (r : regex) (repl s : text) :
  l <> [] -> clean l s = true -> sub (RSeq (RLit l) r) repl s = s.
Proof.
  intros Hl H.
  rewrite <- (app_nil_r s) at 1. rewrite sub_clean_prefix by assumption.
  rewrite sub_nil; [apply app_nil_r|].
  apply match_at_lit_fail. now apply starts_with_nil_r.
Qed.

Lemma sub_lit_clean (l repl s : text) :
  l <> [] -> clean l s = true -> sub (RLit l) repl s = s.
Proof.
  intros Hl. induction s as [|c s IH]; intros H.
  - apply sub_nil. apply match_at_lit_only_fail. now apply starts_with_nil_r.
  - cbn [clean] in H. apply andb_true_iff in H as [Hd H].
    rewrite sub_nomatch; [now rewrite IH|].
    apply match_at_lit_only_fail.
    pose proof (diverge_starts_with _ _ [] Hd) as E.
    now rewrite app_nil_r in E.
Qed.

Lemma search_clean_prefix (l : text) (r : regex) (pre rest : text) :
  clean l pre = true ->
  search (RSeq (RLit l) r) (pre ++ rest) = search (RSeq (RLit l) r) rest.
Proof.
  induction pre as [|c pre IH]; intros H; [reflexivity|].
  cbn [clean] in H. apply andb_true_iff in H as [Hd H].
  change ((c :: pre) ++ rest) with (c :: (pre ++ rest)).
  rewrite search_nomatch; [now apply IH|].
  apply match_at_lit_fail.
  apply (diverge_starts_with _ _ rest Hd).
Qed.

Lemma findall_clean_prefix (l : text) (r : regex) (pre rest : text) :
  clean l pre = true ->
  findall (RSeq (RLit l) r) (pre ++ rest) = findall (RSeq (RLit l) r) rest.
Proof.
  induction pre as [|c pre IH]; intros H; [reflexivity|].
  cbn [clean] in H. apply andb_true_iff in H as [Hd H].
  change ((c :: pre) ++ rest) with (c :: (pre ++ rest)).
  rewrite findall_nomatch; [now apply IH|].
  apply match_at_lit_fail.
  apply (diverge_starts_with _ _ rest Hd).
Qed.

End MatcherFacts.

(* ================================================================== *)
(** * Facts about the dictionary and the reading loop *)
(* ================================================================== *)

Section DictFacts.

Lemma dict_get_set_same (d : dict) (k : text) (v : option text) :
  dict_get (dict_set d k v) k = Some v.
Proof.
  induction d as [|[k' v'] d IH]; simpl.
  - now rewrite text_eqb_refl.
  - destruct (text_eqb k' k) eqn:E; simpl; rewrite E; auto.
Qed.

Lemma dict_get_set_other (d : dict) (k k' : text) (v : option text) :
  k <> k' -> dict_get (dict_set d k v) k' = dict_get d k'.
Proof.
  intros N. induction d as [|[k0 v0] d IH]; simpl.
  - apply text_eqb_neq in N. now rewrite N.
  - destruct (text_eqb k0 k) eqn:E; simpl.
    + apply text_eqb_eq in E. subst k0.
      apply text_eqb_neq in N. now rewrite N.
    + destruct (text_eqb k0 k'); auto.
Qed.

Lemma keys_dict_set (d : dict) (k : text) (v : option text) (x : text) :
  In x (keys (dict_set d k v)) <-> x = k \/ In x (keys d).
Proof.
  induction d as [|[k0 v0] d IH]; simpl.
  - intuition.
  - destruct (text_eqb k0 k) eqn:E; simpl.
    + apply text_eqb_eq in E. subst k0. intuition.
    + rewrite IH. intuition.
Qed.

Lemma values_dict_set (d : dict) (k : text) (v : option text) :
  In v (values (dict_set d k v)).
Proof.
  induction d as [|[k0 v0] d IH]; simpl; [now left|].
  destruct (text_eqb k0 k); simpl; auto.
Qed.

Lemma all_str_None (l : list (option text)) : In None l -> all_str l = None.
Proof.
  induction l as [|[x|] l IH]; simpl; intros H; try reflexivity.
  - contradiction.
  - destruct H as [H|H]; [discriminate|]. now rewrite IH.
Qed.

Lemma read_member_found (tar : archive) (t : text) :
  In t (getnames tar) ->
  exists m, find (fun m => text_eqb (name m) t) (rev tar) = Some m /\ name m = t.
Proof.
  intros H. unfold getnames in H. apply in_map_iff in H as (m & E & Hm).
  destruct (find (fun m => text_eqb (name m) t) (rev tar)) as [m'|] eqn:F.
  - exists m'. split; [reflexivity|].
    apply find_some in F as [_ F]. now apply text_eqb_eq in F.
  - exfalso. apply in_rev in Hm.
    pose proof (find_none _ _ F m Hm) as C. simpl in C.
    rewrite E, text_eqb_refl in C. discriminate.
Qed.

Lemma read_all_fst_Some (tar : archive) (l : list text) (m : text) (d : dict) :
  fst (fold_left (read_one tar) l (Some m, d)) = Some m.
Proof.
  revert d; induction l as [|t l IH]; intros d; simpl; [reflexivity|].
  unfold read_one at 2; simpl. apply IH.
Qed.

Lemma read_all_keys (tar : archive) (l : list text) :
  forall (st : option text * dict) (k : text),
    In k (keys (snd (fold_left (read_one tar) l st))) <->
    In k l \/ In k (keys (snd st)).
Proof.
  induction l as [|t l IH]; intros st k; simpl; [tauto|].
  rewrite IH. unfold read_one; simpl. rewrite keys_dict_set.
  intuition congruence.
Qed.

Lemma read_all_get (tar : archive) (l : list text) :
  forall (st : option text * dict) (t : text),
    In t l \/ dict_get (snd st) t = Some (Some (content_of tar t)) ->
    dict_get (snd (fold_left (read_one tar) l st)) t
    = Some (Some (content_of tar t)).
Proof.
  induction l as [|x l IH]; intros st t H; simpl.
  - destruct H as [[]|H]; assumption.
  - apply IH. unfold read_one; simpl.
    destruct (text_eqb x t) eqn:E.
    + apply text_eqb_eq in E. subst x. right. apply dict_get_set_same.
    + apply text_eqb_neq in E.
      destruct H as [[H|H]|H]; [congruence | now left |].
      right. now rewrite dict_get_set_other.
Qed.

Lemma tex_files_end (tar : archive) (t : text) :
  In t (tex_files_of tar) -> ends_with (T ".tex") t = true.
Proof. unfold tex_files_of. intros H. now apply filter_In in H. Qed.

Lemma all_not_tex : ends_with (T ".tex") (T "all") = false.
Proof. reflexivity. Qed.

(** The two shapes of what [tex] returns on an archive with [.tex]
    members. *)
Lemma tex_unfold (tar : archive) :
  tex_files_of tar <> [] ->
  let fc := snd (read_all tar (tex_files_of tar)
                   (main_tex_of_names (tex_files_of tar) (bbl_file_of tar))) in
  tex (Some tar) =
  Some (dict_set fc (T "all")
          match main_tex_of tar with
          | Some m => Some (flatten fc (get_str fc m))
          | None => None
          end).
Proof.
  intros H. unfold tex, main_tex_of.
  destruct (tex_files_of tar) as [|t l] eqn:E; [congruence|].
  cbn [length Nat.eqb].
  now destruct (fst _).
Qed.

Lemma tex_no_files (tar : archive) :
  tex_files_of tar = [] -> tex (Some tar) = None.
Proof. unfold tex. now intros ->. Qed.

End DictFacts.

(* ================================================================== *)
(** * The fallback of [tldr] when no main file is found *)
(* ================================================================== *)

Section Fallback.

Lemma tldr_content_all_None (d : dict) :
  tldr_content (dict_set d (T "all") None) = TypeError.
Proof.
  unfold tldr_content, get. rewrite dict_get_set_same.
  unfold join_values. rewrite all_str_None; [reflexivity|].
  apply values_dict_set.
Qed.

(** C1.  When the archive has [.tex] members and no main file is
    settled on, [tex] returns a dictionary whose entry [all] is
    [None]; the fallback of [tldr] then joins the values of that
    dictionary, the [None] of [all] among them, and the join raises
    [TypeError] instead of returning a text. *)
Theorem C1_fallback_join_raises (tar : archive) :
  tex_files_of tar <> [] ->
  main_tex_of tar = None ->
  exists d, tex (Some tar) = Some d
            /\ dict_get d (T "all") = Some None
            /\ tldr_sections (tex (Some tar)) = TypeError.
Proof.
  intros Hf Hm. rewrite (tex_unfold tar Hf), Hm.
  eexists. split; [reflexivity|]. split.
  - apply dict_get_set_same.
  - unfold tldr_sections. now rewrite tldr_content_all_None.
Qed.

Lemma C1_fallback_join_raises_witness :
  exists d, tex (Some two_fragments) = Some d
            /\ dict_get d (T "all") = Some None
            /\ tldr_sections (tex (Some two_fragments)) = TypeError.
Proof.
  apply (@C1_fallback_join_raises two_fragments).
  - vm_compute. discriminate.
  - vm_compute. reflexivity.
Defined.

End Fallback.

(* ================================================================== *)
(** * The keys of the dictionary *)
(* ================================================================== *)

Section Keys.

(** C9.  Every key of the dictionary that [tex] returns is [all] or
    ends with [.tex]; the key [all] does not end with [.tex], and each
    [.tex] member still has its own stripped content as its entry
    after [all] has been put in. *)
Theorem C9_keys_end_with_tex (tar : archive) (d : dict) :
  tex (Some tar) = Some d ->
  (forall k, In k (keys d) -> k = T "all" \/ ends_with (T ".tex") k = true)
  /\ ends_with (T ".tex") (T "all") = false
  /\ (forall t, In t (tex_files_of tar) ->
        dict_get d t = Some (Some (content_of tar t))).
Proof.
  intros H.
  destruct (tex_files_of tar) as [|t0 l0] eqn:E.
  { rewrite (tex_no_files _ E) in H. discriminate. }
  assert (Hf : tex_files_of tar <> []) by (rewrite E; discriminate).
  rewrite (tex_unfold tar Hf) in H. injection H as <-.
  rewrite <- E. split; [|split].
  - intros k Hk. apply keys_dict_set in Hk as [Hk|Hk]; [now left|right].
    unfold read_all in Hk. apply read_all_keys in Hk as [Hk|[]].
    now apply tex_files_end in Hk.
  - reflexivity.
  - intros t Ht. rewrite dict_get_set_other.
    + unfold read_all. apply read_all_get. now left.
    + intros C. apply tex_files_end in Ht. rewrite <- C in Ht. discriminate.
Qed.

Lemma C9_keys_end_with_tex_witness :
  (forall k, In k (keys [(T "a.tex", Some (T "hello"));
                         (T "b.tex", Some (T "world"));
                         (T "all", None)]) ->
     k = T "all" \/ ends_with (T ".tex") k = true)
  /\ ends_with (T ".tex") (T "all") = false
  /\ (forall t, In t (tex_files_of two_fragments) ->
        dict_get [(T "a.tex", Some (T "hello"));
                  (T "b.tex", Some (T "world"));
                  (T "all", None)] t
        = Some (Some (content_of two_fragments t))).
Proof.
  apply (@C9_keys_end_with_tex two_fragments). vm_compute. reflexivity.
Defined.

End Keys.

(* ================================================================== *)
(** * The main file named after the bibliography *)
(* ================================================================== *)

Section Bibliography.

Lemma bbl_literal : T ".bbl" = [46; 98; 98; 108]%N.
Proof. reflexivity. Qed.

Lemma replace_bbl_join (xs : list text) :
  (forall x, In x xs -> ~ In dot x) ->
  str_replace (T ".bbl") [] (join (T ".bbl") xs) = concat xs.
Proof.
  change (str_replace (T ".bbl") [] (join (T ".bbl") xs))
    with (replace_aux (T ".bbl") [] 0 (join (T ".bbl") xs)).
  induction xs as [|x xs IH]; intros H; [reflexivity|].
  assert (Hx : clean (T ".bbl") x = true).
  { apply (clean_no_head dot (T "bbl")). apply H. now left. }
  assert (IH' : replace_aux (T ".bbl") [] 0 (join (T ".bbl") xs) = concat xs).
  { apply IH. intros y Hy. apply H. now right. }
  destruct xs as [|y xs].
  - simpl. rewrite <- (app_nil_r x) at 1.
    rewrite replace_aux_clean by assumption. reflexivity.
  - change (join (T ".bbl") (x :: y :: xs))
      with (x ++ T ".bbl" ++ join (T ".bbl") (y :: xs)).
    rewrite replace_aux_clean by assumption.
    rewrite replace_aux_match by discriminate.
    rewrite IH'. reflexivity.
Qed.

(** [.bbl] cannot begin inside a stem and end inside the [.bbl] that
    follows it: its only dot is its first character. *)
Lemma bbl_no_overlap (c : char) (stem : text) :
  starts_with (T ".bbl") (c :: stem) = false ->
  starts_with (T ".bbl") ((c :: stem) ++ T ".bbl") = false.
Proof.
  rewrite bbl_literal.
  destruct stem as [|c1 [|c2 [|c3 s]]]; cbn [starts_with app]; intros H;
    repeat match goal with
           | |- context [N.eqb ?a ?b] => is_var b; destruct (N.eqb a b)
           end;
    solve [reflexivity | discriminate | exact H].
Qed.

Lemma replace_bbl_stem (stem : text) :
  occurs (T ".bbl") stem = false ->
  str_replace (T ".bbl") [] (stem ++ T ".bbl") = stem.
Proof.
  change (str_replace (T ".bbl") [] (stem ++ T ".bbl"))
    with (replace_aux (T ".bbl") [] 0 (stem ++ T ".bbl")).
  induction stem as [|c stem IH]; intros H; [reflexivity|].
  cbn [occurs] in H. apply orb_false_iff in H as [H1 H2].
  apply bbl_no_overlap in H1.
  change ((c :: stem) ++ T ".bbl") with (c :: (stem ++ T ".bbl")) in *.
  cbn [replace_aux]. rewrite H1. f_equal. now apply IH.
Qed.

Lemma main_tex_of_one_bbl (tar : archive) (b : text) :
  bbl_file_of tar = [b] ->
  In (candidate b) (tex_files_of tar) ->
  main_tex_of tar = Some (candidate b).
Proof.
  intros Hb Hin. unfold main_tex_of. rewrite Hb.
  unfold main_tex_of_names. apply mem_In in Hin. rewrite Hin.
  apply read_all_fst_Some.
Qed.

(** C10.  With exactly one [.bbl] member [b], the name that the
    resolver looks for among the [.tex] members is [b] with every
    occurrence of [.bbl] taken out, followed by [.tex]: when [b] is
    made of pieces without a dot that are joined by [.bbl], the name is
    the pieces put together, so [a.bbl.bbl] gives [a.tex]. *)
Theorem C10_candidate_deletes_every_bbl (tar : archive) (b : text) :
  bbl_file_of tar = [b] ->
  main_tex_of_names (tex_files_of tar) (bbl_file_of tar)
  = (if mem (candidate b) (tex_files_of tar) then Some (candidate b) else None)
  /\ (forall xs, (forall x, In x xs -> ~ In dot x) ->
        b = join (T ".bbl") xs -> candidate b = concat xs ++ T ".tex")
  /\ candidate (T "a.bbl.bbl") = T "a.tex".
Proof.
  intros Hb. split; [|split].
  - rewrite Hb. reflexivity.
  - intros xs Hx ->. unfold candidate. now rewrite replace_bbl_join.
  - reflexivity.
Qed.

Lemma C10_candidate_deletes_every_bbl_witness :
  main_tex_of_names (tex_files_of double_bbl_short) (bbl_file_of double_bbl_short)
  = (if mem (candidate (T "a.bbl.bbl")) (tex_files_of double_bbl_short)
     then Some (candidate (T "a.bbl.bbl")) else None)
  /\ (forall xs, (forall x, In x xs -> ~ In dot x) ->
        T "a.bbl.bbl" = join (T ".bbl") xs ->
        candidate (T "a.bbl.bbl") = concat xs ++ T ".tex")
  /\ candidate (T "a.bbl.bbl") = T "a.tex".
Proof.
  apply (@C10_candidate_deletes_every_bbl double_bbl_short (T "a.bbl.bbl")).
  vm_compute. reflexivity.
Defined.

(** C3, as the code has it.  With exactly one [.bbl] member whose stem
    does not itself contain [.bbl], and a [.tex] member of the same
    stem, that [.tex] member is the main file, whatever other [.tex]
    members there are; in general the [.tex] member chosen is the one
    named by [candidate]. *)
Theorem C3_bbl_stem_selects_tex (tar : archive) (stem : text) :
  bbl_file_of tar = [stem ++ T ".bbl"] ->
  occurs (T ".bbl") stem = false ->
  In (stem ++ T ".tex") (getnames tar) ->
  main_tex_of tar = Some (stem ++ T ".tex").
Proof.
  intros Hb Ho Hin.
  assert (E : candidate (stem ++ T ".bbl") = stem ++ T ".tex").
  { unfold candidate. now rewrite replace_bbl_stem. }
  rewrite <- E. apply main_tex_of_one_bbl; [assumption|].
  rewrite E. unfold tex_files_of. apply filter_In. split; [assumption|].
  apply ends_with_app.
Qed.

Lemma C3_bbl_stem_selects_tex_witness :
  main_tex_of with_bbl = Some (T "main" ++ T ".tex").
Proof.
  apply (@C3_bbl_stem_selects_tex with_bbl (T "main")).
  - vm_compute. reflexivity.
  - vm_compute. reflexivity.
  - vm_compute. tauto.
Defined.

(** C3 as stated fails: the only [.bbl] member is [a.bbl.bbl], of stem
    [a.bbl]; the [.tex] member of that stem is [a.bbl.tex]; the main
    file settled on is [b.tex]. *)
Lemma C3_counterexample :
  bbl_file_of double_bbl = [T "a.bbl" ++ T ".bbl"]
  /\ In (T "a.bbl" ++ T ".tex") (tex_files_of double_bbl)
  /\ main_tex_of double_bbl = Some (T "b.tex")
  /\ main_tex_of double_bbl <> Some (T "a.bbl" ++ T ".tex").
Proof.
  split; [|split; [|split]].
  - vm_compute. reflexivity.
  - vm_compute. tauto.
  - vm_compute. reflexivity.
  - vm_compute. discriminate.
Qed.

End Bibliography.

(* ================================================================== *)
(** * Decoding the members *)
(* ================================================================== *)

Section Decoding.
Local Open Scope N_scope.

Lemma decode_ascii (b : byte) (r : list byte) :
  is_ascii b = true -> decode_ignore (b :: r) = Byte.to_N b :: decode_ignore r.
Proof. unfold is_ascii. intros H. cbn [decode_ignore]. now rewrite H. Qed.


Lemma decode_ascii_prefix (pre : list byte) (r : list byte) :
  forallb is_ascii pre = true ->
  decode_ignore (pre ++ r) = map Byte.to_N pre ++ decode_ignore r.
Proof.
  induction pre as [|b pre IH]; intros H; [reflexivity|].
  cbn [forallb] in H. apply andb_true_iff in H as [Hb H].
  change ((b :: pre) ++ r) with (b :: (pre ++ r)).
  rewrite decode_ascii by assumption. cbn [map app]. now rewrite IH.
Qed.






Lemma to_N_lt (b : byte) : Byte.to_N b < 256.
Proof. pose proof (Byte.to_N_bounded b). lia. Qed.
















Lemma subseq_nil_l (b : list byte) : subseq [] b = true.
Proof. now destruct b. Qed.
















End Decoding.

(* ================================================================== *)
(** * Line comments *)
(* ================================================================== *)

Section LineComments.

Lemma run_lit_seq (A : Type) (l : text) (r : regex) (s : text)
      (cont : text -> option A) :
  run (RSeq (RLit l) r) (l ++ s) cont = run r s cont.
Proof. simpl. now rewrite starts_with_app, skipn_length_app. Qed.

Lemma run_nl_lit (s : text) :
  run (RLit [nl]) s (@Some text)
  = match s with c :: s' => if N.eqb nl c then Some s' else None | [] => None end.
Proof.
  destruct s as [|c s]; [reflexivity|]. simpl.
  now rewrite andb_true_r.
Qed.

(** [.*\n] from inside a line that ends with a newline: the greedy
    [.*] takes the line, the newline closes the match. *)
Lemma rest_of_line_match (line rest : text) :
  ~ In nl line ->
  rep true (CDot false) 0 None (line ++ nl :: rest)
      (fun s' => run (RLit [nl]) s' (@Some text)) = Some rest.
Proof.
  induction line as [|c line IH]; intros H.
  - cbn [app rep in_class]. rewrite N.eqb_refl. cbn [negb orb].
    rewrite run_nl_lit, N.eqb_refl. reflexivity.
  - assert (Hc : N.eqb c nl = false) by (apply N.eqb_neq; simpl in H; tauto).
    change ((c :: line) ++ nl :: rest) with (c :: (line ++ nl :: rest)).
    cbn [rep in_class pred option_map]. rewrite Hc. cbn [negb orb].
    rewrite IH; [reflexivity | simpl in H; tauto].
Qed.

(** Without a newline after it a [%] starts no match. *)
Lemma rest_of_line_no_match (line : text) :
  ~ In nl line ->
  rep true (CDot false) 0 None line
      (fun s' => run (RLit [nl]) s' (@Some text)) = None.
Proof.
  induction line as [|c line IH]; intros H.
  - reflexivity.
  - assert (Hc : N.eqb c nl = false) by (apply N.eqb_neq; simpl in H; tauto).
    cbn [rep in_class pred option_map]. rewrite Hc. cbn [negb orb].
    rewrite IH by (simpl in H; tauto).
    rewrite run_nl_lit. rewrite N.eqb_sym, Hc. reflexivity.
Qed.

Lemma line_comment_match (after rest : text) :
  ~ In nl after ->
  match_at re_line_comment ((percent :: after ++ [nl]) ++ rest) = Some rest.
Proof.
  intros H. unfold match_at, re_line_comment.
  change ((percent :: after ++ [nl]) ++ rest)
    with (T "%" ++ ((after ++ [nl]) ++ rest)).
  rewrite run_lit_seq. rewrite <- app_assoc. cbn [run app].
  now apply rest_of_line_match.
Qed.

Lemma line_comment_no_match (after : text) :
  ~ In nl after -> match_at re_line_comment (percent :: after) = None.
Proof.
  intros H. unfold match_at, re_line_comment.
  change (percent :: after) with (T "%" ++ after).
  rewrite run_lit_seq. cbn [run].
  now apply rest_of_line_no_match.
Qed.

Lemma clean_percent (x : text) : ~ In percent x -> clean (T "%") x = true.
Proof. apply (clean_no_head percent []). Qed.

(** A text without a newline has no comment to remove. *)
Lemma remove_line_comments_no_nl (s : text) :
  ~ In nl s -> remove_line_comments s = s.
Proof.
  unfold remove_line_comments.
  induction s as [|c s IH]; intros H; [reflexivity|].
  rewrite sub_nomatch; [rewrite IH; [reflexivity | simpl in H; tauto]|].
  destruct (N.eqb_spec c percent) as [->|Hc].
  - apply line_comment_no_match. simpl in H; tauto.
  - apply match_at_lit_fail. apply (@starts_with_head [] s percent c).
    congruence.
Qed.

(** C5, as the code has it.  On a line that ends with a newline the
    text from the first [%] to the end of the line is deleted and the
    newline is kept, whether or not a backslash stands before the [%];
    what stands before the first [%] is kept.  A last line without a
    newline is left as it is. *)
Theorem C5_comment_from_first_percent (before after tail : text) :
  ~ In percent before -> ~ In nl after ->
  remove_line_comments (before ++ percent :: after ++ nl :: tail)
  = before ++ nl :: remove_line_comments tail
  /\ remove_line_comments (before ++ percent :: after)
     = before ++ percent :: after.
Proof.
  intros Hb Ha. unfold remove_line_comments. split.
  - unfold re_line_comment at 1.
    rewrite sub_clean_prefix by now apply clean_percent.
    fold re_line_comment. f_equal.
    change (percent :: after ++ nl :: tail)
      with ((percent :: after) ++ [nl] ++ tail).
    rewrite app_assoc.
    rewrite (@sub_match re_line_comment [nl] ((percent :: after) ++ [nl]) tail).
    + reflexivity.
    + discriminate.
    + now apply line_comment_match.
  - unfold re_line_comment at 1.
    rewrite sub_clean_prefix by now apply clean_percent.
    fold re_line_comment. f_equal.
    rewrite sub_nomatch by now apply line_comment_no_match.
    f_equal. now apply remove_line_comments_no_nl.
Qed.

Lemma C5_comment_from_first_percent_witness :
  remove_line_comments (T "a\" ++ percent :: T "b" ++ nl :: T "c")
  = T "a\" ++ nl :: remove_line_comments (T "c")
  /\ remove_line_comments (T "a\" ++ percent :: T "b")
     = T "a\" ++ percent :: T "b".
Proof.
  apply (@C5_comment_from_first_percent (T "a\") (T "b") (T "c")).
  - vm_compute. intros [H|[H|[]]]; discriminate.
  - vm_compute. intros [H|[]]; discriminate.
Defined.

(** C5 as stated fails: in [a\%b] followed by a newline the [%] is
    escaped, and still [%b] is deleted. *)
Lemma C5_counterexample :
  remove_line_comments (T "a\%b" ++ [nl]) = T "a\" ++ [nl]
  /\ remove_line_comments (T "a\%b" ++ [nl]) <> T "a\%b" ++ [nl].
Proof. split; [reflexivity | vm_compute; discriminate]. Qed.

End LineComments.

(* ================================================================== *)
(** * Cutting out a section *)
(* ================================================================== *)

Section Sections.

Lemma run_end_word (s : text) :
  run re_end_word s (@Some text) =
  if starts_with (T "\section") s then Some (skipn (length (T "\section")) s)
  else if starts_with (T "\end{document}") s
       then Some (skipn (length (T "\end{document}")) s)
  else if starts_with (T "\bibliography") s
       then Some (skipn (length (T "\bibliography")) s)
  else if starts_with (T "\appendix") s
       then Some (skipn (length (T "\appendix")) s)
  else if at_end s then Some s else None.
Proof.
  unfold re_end_word. cbn [run].
  repeat match goal with
         | |- context [starts_with ?l s] => destruct (starts_with l s)
         end; reflexivity.
Qed.

Lemma end_word_match (tok rest : text) :
  In tok end_words -> run re_end_word (tok ++ rest) (@Some text) = Some rest.
Proof.
  intros H. rewrite run_end_word.
  destruct H as [<-|[<-|[<-|[<-|[]]]]]; reflexivity.
Qed.

Lemma no_end_word_cons (c : char) (y : text) :
  no_end_word (c :: y) = true ->
  (forall w, In w end_words -> diverge w (c :: y) = true)
  /\ no_end_word y = true.
Proof.
  unfold no_end_word. rewrite !forallb_forall. intros H. split.
  - intros w Hw. specialize (H w Hw). cbn [clean] in H.
    now apply andb_true_iff in H.
  - intros w Hw. specialize (H w Hw). cbn [clean] in H.
    now apply andb_true_iff in H.
Qed.

Lemma end_word_no_match (c : char) (y r : text) :
  no_end_word (c :: y) = true -> r <> [] ->
  run re_end_word ((c :: y) ++ r) (@Some text) = None.
Proof.
  intros H Hr. apply no_end_word_cons in H as [H _].
  rewrite run_end_word.
  rewrite !diverge_starts_with by (apply H; simpl; tauto).
  cbn [app at_end]. destruct (y ++ r) eqn:E; [|reflexivity].
  apply app_eq_nil in E as [_ E]. contradiction.
Qed.

Lemma no_end_word_tail (c : char) (y : text) :
  no_end_word (c :: y) = true -> no_end_word y = true.
Proof. intros H. now apply no_end_word_cons in H. Qed.

Lemma rep_lazy_unfold (A : Type) (k : cclass) (s : text)
      (cont : text -> option A) :
  rep false k 0 None s cont =
  match cont s with
  | Some x => Some x
  | None =>
      match s with
      | c :: s' => if in_class k c then rep false k 0 None s' cont else None
      | [] => None
      end
  end.
Proof. destruct s; reflexivity. Qed.

(** The lazy [.*?] goes over a body without end words one character
    at a time and stops at the end word that follows; the end word is
    part of the match. *)
Lemma body_then_end_word (body tok rest : text) :
  no_end_word body = true -> In tok end_words ->
  rep false (CDot true) 0 None (body ++ tok ++ rest)
      (fun s' => run re_end_word s' (@Some text)) = Some rest.
Proof.
  intros Hb Ht. induction body as [|c body IH].
  - rewrite rep_lazy_unfold. cbn [app]. now rewrite end_word_match.
  - rewrite rep_lazy_unfold. rewrite end_word_no_match; [|assumption|].
    + change ((c :: body) ++ tok ++ rest) with (c :: (body ++ tok ++ rest)).
      cbn [in_class orb]. apply IH. now apply no_end_word_tail in Hb.
    + destruct Ht as [<-|[<-|[<-|[<-|[]]]]]; discriminate.
Qed.

Lemma find_section_span (heading pre body tok rest : text) :
  clean heading pre = true -> no_end_word body = true -> In tok end_words ->
  find_section heading (pre ++ heading ++ body ++ tok ++ rest)
  = heading ++ body ++ tok.
Proof.
  intros Hp Hb Ht. unfold find_section, re_section.
  rewrite search_clean_prefix by assumption.
  replace (heading ++ body ++ tok ++ rest)
    with ((heading ++ body ++ tok) ++ rest)
    by now rewrite <- !app_assoc.
  rewrite search_match; [reflexivity|].
  unfold match_at. rewrite <- !app_assoc. rewrite run_lit_seq.
  cbn [run]. now apply body_then_end_word.
Qed.

(** C4, as the code has it.  Let the text, after citations, figures
    and tables have been taken out, be [pre], the introduction
    heading, [body], an end word and [rest], where the heading does
    not start inside [pre] and no end word starts inside [body].  The
    introduction is the heading, [body] and the end word: the end word
    belongs to the span that is returned. *)
Theorem C4_section_span_includes_end_word
        (content pre body tok rest : text) :
  remove_cite_figure_table content
  = pre ++ heading_introduction ++ body ++ tok ++ rest ->
  clean heading_introduction pre = true ->
  no_end_word body = true ->
  In tok end_words ->
  fst (extract_sections content) = heading_introduction ++ body ++ tok.
Proof.
  intros E Hp Hb Ht. unfold extract_sections. cbn [fst].
  rewrite E. now apply find_section_span.
Qed.

Lemma C4_section_span_includes_end_word_witness :
  fst (extract_sections
         (T "\maketitle \section{Introduction}Hello\section{Methods}World"))
  = heading_introduction ++ T "Hello" ++ T "\section".
Proof.
  apply (@C4_section_span_includes_end_word _
           (T "\maketitle ") (T "Hello") (T "\section") (T "{Methods}World")).
  - vm_compute. reflexivity.
  - vm_compute. reflexivity.
  - vm_compute. reflexivity.
  - vm_compute. tauto.
Defined.

(** C4 as stated fails: for [\section{Introduction}Hello] followed by
    [\section{Methods}World] the span that ends before the next end
    word is [\section{Introduction}Hello]; the introduction returned
    has the [\section] of the next heading at its end. *)
Lemma C4_counterexample :
  fst (extract_sections (T "\section{Introduction}Hello\section{Methods}World"))
  = T "\section{Introduction}Hello\section"
  /\ fst (extract_sections (T "\section{Introduction}Hello\section{Methods}World"))
     <> T "\section{Introduction}Hello".
Proof. split; [reflexivity | vm_compute; discriminate]. Qed.

End Sections.

(* ================================================================== *)
(** * Putting the included files in *)
(* ================================================================== *)

Section Includes.

Lemma diverge_extend (p q b : text) :
  diverge p b = true -> diverge (p ++ q) b = true.
Proof.
  revert b; induction p as [|a p IH]; intros [|c b] H; simpl in *;
    try discriminate.
  destruct (N.eqb a c); simpl in *; auto.
Qed.

Lemma clean_extend (p q t : text) :
  clean p t = true -> clean (p ++ q) t = true.
Proof.
  induction t as [|c t IH]; intros H; [reflexivity|].
  cbn [clean] in *. apply andb_true_iff in H as [Hd H].
  rewrite (diverge_extend _ q _ Hd). now rewrite IH.
Qed.

Lemma starts_with_app_same (p a b : text) :
  starts_with (p ++ a) (p ++ b) = starts_with a b.
Proof.
  induction p as [|c p IH]; [reflexivity|].
  simpl. now rewrite N.eqb_refl.
Qed.

Lemma good_name_facts (n : text) :
  good_name n = true ->
  n <> [] /\ ~ In rbrace n /\ ~ In nl n /\ ~ In backslash n.
Proof.
  unfold good_name. destruct n as [|c n]; [discriminate|].
  intros H. split; [discriminate|].
  assert (F : forall e, In e (c :: n) ->
                e <> rbrace /\ e <> nl /\ e <> backslash).
  { intros e He. rewrite forallb_forall in H. specialize (H e He).
    apply andb_true_iff in H as [H H3]. apply andb_true_iff in H as [H1 H2].
    apply negb_true_iff in H1, H2, H3.
    apply N.eqb_neq in H1, H2, H3. auto. }
  repeat split; intros C; destruct (F _ C) as (? & ? & ?); congruence.
Qed.

(** Two texts without closing brace that are both followed by a
    closing brace at the head of the same text are equal. *)
Lemma brace_prefix_eq (x n rest : text) :
  ~ In rbrace x -> ~ In rbrace n ->
  starts_with (x ++ [rbrace]) (n ++ rbrace :: rest) = true -> x = n.
Proof.
  revert n; induction x as [|c x IH]; intros [|e n] Hx Hn H.
  - reflexivity.
  - cbn [starts_with app] in H. apply andb_true_iff in H as [H _].
    apply N.eqb_eq in H. subst e. simpl in Hn. tauto.
  - cbn [starts_with app] in H. apply andb_true_iff in H as [H _].
    apply N.eqb_eq in H. subst c. simpl in Hx. tauto.
  - cbn [starts_with app] in H. apply andb_true_iff in H as [E H].
    apply N.eqb_eq in E. subst e. f_equal.
    apply IH; [simpl in Hx; tauto | simpl in Hn; tauto | assumption].
Qed.

Lemma tail_ok_no_brace (c : char) (x : text) :
  tail_ok (c :: x) = true -> ~ In rbrace x.
Proof.
  unfold tail_ok. cbn [tl]. rewrite forallb_forall. intros H C.
  specialize (H _ C). now rewrite N.eqb_refl in H.
Qed.

Lemma good_name_tail_ok (n : text) : good_name n = true -> tail_ok n = true.
Proof.
  intros H. apply good_name_facts in H as (_ & H & _).
  unfold tail_ok. apply forallb_forall. intros c Hc.
  apply negb_true_iff, N.eqb_neq. intros ->.
  destruct n; simpl in *; tauto.
Qed.

(** The marker of [x] is at the head of the marker of [n] only when
    the names are the same. *)
Lemma marker_name_eq (x n rest : text) :
  good_name n = true -> tail_ok x = true ->
  starts_with (input_marker x) (input_marker n ++ rest) = true -> n = x.
Proof.
  intros Hn Hx H. apply good_name_facts in Hn as (Hne & Hb & _).
  unfold input_marker in H. rewrite <- !app_assoc in H.
  rewrite starts_with_app_same in H.
  change (T "}" ++ rest) with (rbrace :: rest) in H.
  change (T "}") with [rbrace] in H.
  destruct n as [|e n]; [congruence|].
  destruct x as [|c x].
  - cbn [starts_with app] in H. apply andb_true_iff in H as [H _].
    apply N.eqb_eq in H. subst e. simpl in Hb. tauto.
  - pose proof (tail_ok_no_brace _ _ Hx) as Hx'.
    cbn [starts_with app] in H. apply andb_true_iff in H as [E H].
    apply N.eqb_eq in E. subst e. f_equal. symmetry.
    apply (brace_prefix_eq x n rest); [assumption | simpl in Hb; tauto | assumption].
Qed.

Lemma input_marker_cons (n : text) :
  input_marker n = backslash :: (T "input{" ++ n ++ T "}").
Proof. reflexivity. Qed.

Lemma marker_tail_no_backslash (n : text) :
  good_name n = true -> ~ In backslash (T "input{" ++ n ++ T "}").
Proof.
  intros H. apply good_name_facts in H as (_ & _ & _ & H).
  intros C. apply in_app_or in C as [C|C].
  - vm_compute in C. repeat destruct C as [C|C]; try discriminate; assumption.
  - apply in_app_or in C as [C|C]; [contradiction|].
    vm_compute in C. destruct C as [C|[]]. discriminate.
Qed.

Lemma render_cons (i : item) (items : list item) :
  render (i :: items) = item_text i ++ render items.
Proof. reflexivity. Qed.

Lemma input_marker_not_nil (x : text) : input_marker x <> [].
Proof. discriminate. Qed.

(** One substitution on a main file made of pieces: the markers of [x]
    become [c], everything else stays, provided the marker of [x]
    starts nowhere in the texts. *)
Lemma replace_marker (x c : text) (items : list item) :
  tail_ok x = true ->
  (forall t, In (Text t) items -> clean (input_marker x) t = true) ->
  (forall n, In (Marker n) items -> good_name n = true) ->
  str_replace (input_marker x) c (render items)
  = render (map (subst_item x c) items).
Proof.
  intros Hx.
  change (str_replace (input_marker x) c (render items))
    with (replace_aux (input_marker x) c 0 (render items)).
  induction items as [|i items IH]; intros Ht Hm; [reflexivity|].
  assert (IH' : replace_aux (input_marker x) c 0 (render items)
                = render (map (subst_item x c) items)).
  { apply IH; intros; [apply Ht | apply Hm]; now right. }
  cbn [map]. rewrite !render_cons.
  destruct i as [t|n]; cbn [item_text subst_item].
  - rewrite replace_aux_clean by (apply Ht; now left).
    now rewrite IH'.
  - assert (Hn : good_name n = true) by (apply Hm; now left).
    destruct (text_eqb n x) eqn:E; cbn [item_text].
    + apply text_eqb_eq in E. subst n.
      rewrite replace_aux_match by apply input_marker_not_nil.
      now rewrite IH'.
    + assert (S0 : starts_with (input_marker x) (input_marker n ++ render items)
                   = false).
      { destruct (starts_with _ _) eqn:S1; [|reflexivity].
        apply marker_name_eq in S1; [|assumption..].
        apply text_eqb_neq in E. contradiction. }
      rewrite (input_marker_cons n) in S0 |- *.
      change ((backslash :: (T "input{" ++ n ++ T "}")) ++ render items)
        with (backslash :: ((T "input{" ++ n ++ T "}") ++ render items)) in *.
      cbn [replace_aux]. rewrite S0.
      rewrite replace_aux_clean.
      * now rewrite IH'.
      * apply (clean_no_head backslash (T "input{" ++ x ++ T "}")).
        now apply marker_tail_no_backslash.
Qed.

(** ** The names found in the main file *)

Lemma run_brace_lit (s : text) :
  run (RLit (T "}")) s (@Some text)
  = match s with
    | c :: s' => if N.eqb rbrace c then Some s' else None
    | [] => None
    end.
Proof.
  destruct s as [|c s]; [reflexivity|].
  change (T "}") with [rbrace]. cbn [run starts_with length skipn].
  now rewrite andb_true_r.
Qed.

(** The lazy [.+?] ends at the first closing brace. *)
Lemma lazy_name_match (y rest : text) :
  ~ In rbrace y -> ~ In nl y ->
  rep false (CDot false) 0 None (y ++ rbrace :: rest)
      (fun s' => run (RLit (T "}")) s' (@Some text)) = Some rest.
Proof.
  induction y as [|c y IH]; intros Hb Hn; rewrite rep_lazy_unfold.
  - cbn [app]. rewrite run_brace_lit. now rewrite N.eqb_refl.
  - change ((c :: y) ++ rbrace :: rest) with (c :: (y ++ rbrace :: rest)).
    rewrite run_brace_lit.
    assert (E1 : N.eqb rbrace c = false)
      by (apply N.eqb_neq; simpl in Hb; intuition congruence).
    assert (E2 : N.eqb c nl = false)
      by (apply N.eqb_neq; simpl in Hn; intuition congruence).
    rewrite E1. cbn [in_class]. rewrite E2. cbn [negb orb].
    apply IH; simpl in *; tauto.
Qed.

Lemma name_then_brace (A : Type) (r : regex) (l n rest : text)
      (cont : text -> option A) :
  run (RSeq (RLit l) r) ((l ++ n ++ T "}") ++ rest) cont
  = run r (n ++ rbrace :: rest) cont.
Proof. rewrite <- !app_assoc. apply run_lit_seq. Qed.

Lemma one_then_lazy (c : char) (y rest : text) :
  N.eqb c nl = false -> ~ In rbrace y -> ~ In nl y ->
  run (RSeq (RRep false 1 None (CDot false)) (RLit (T "}")))
      ((c :: y) ++ rbrace :: rest) (@Some text) = Some rest.
Proof.
  intros E Hb Hn.
  change ((c :: y) ++ rbrace :: rest) with (c :: (y ++ rbrace :: rest)).
  cbn [run rep in_class pred option_map]. rewrite E. cbn [negb orb].
  now apply lazy_name_match.
Qed.

Lemma marker_match (n rest : text) :
  good_name n = true ->
  match_at re_input (input_marker n ++ rest) = Some rest.
Proof.
  intros H. apply good_name_facts in H as (Hne & Hb & Hn & _).
  unfold match_at, re_input, input_marker. rewrite name_then_brace.
  destruct n as [|c n]; [congruence|].
  apply one_then_lazy; simpl in *; try tauto.
  apply N.eqb_neq. intuition congruence.
Qed.

Lemma findall_input_render (items : list item) :
  forallb item_ok items = true ->
  findall re_input (render items) = map input_marker (marker_names items).
Proof.
  induction items as [|i items IH]; intros H.
  - now apply findall_nil.
  - cbn [forallb] in H. apply andb_true_iff in H as [Hi H].
    rewrite render_cons. destruct i as [t|n]; cbn [item_text item_ok] in *.
    + unfold re_input at 1. rewrite findall_clean_prefix by assumption.
      fold re_input. now apply IH.
    + rewrite findall_match.
      * cbn [marker_names flat_map app map]. f_equal. now apply IH.
      * apply input_marker_not_nil.
      * now apply marker_match.
Qed.

Lemma group_between (l n e : text) :
  firstn (length (l ++ n ++ e) - length l - length e) (skipn (length l) (l ++ n ++ e))
  = n.
Proof.
  rewrite skipn_length_app, !length_app.
  replace (length l + (length n + length e) - length l - length e)
    with (length n) by lia.
  apply firstn_length_app.
Qed.

Lemma findall_group_input_render (items : list item) :
  forallb item_ok items = true ->
  findall_group re_input 7 1 (render items) = marker_names items.
Proof.
  intros H. unfold findall_group. rewrite findall_input_render by assumption.
  rewrite map_map. rewrite <- (map_id (marker_names items)) at 2.
  apply map_ext. intros n.
  apply (group_between (T "\input{") n (T "}")).
Qed.

Lemma lazy_name_inv (s rest : text) :
  rep false (CDot false) 0 None s
      (fun s' => run (RLit (T "}")) s' (@Some text)) = Some rest ->
  exists y, s = y ++ rbrace :: rest /\ ~ In rbrace y.
Proof.
  induction s as [|c s IH]; rewrite rep_lazy_unfold, run_brace_lit; intros H.
  - discriminate.
  - destruct (N.eqb_spec rbrace c) as [<-|Hc].
    + injection H as <-. now exists [].
    + destruct (in_class (CDot false) c); [|discriminate].
      destruct (IH H) as (y & -> & Hy).
      exists (c :: y). split; [reflexivity|].
      simpl. intuition congruence.
Qed.

Lemma match_include_inv (s rest : text) :
  match_at re_include s = Some rest ->
  exists x, s = T "\include{" ++ x ++ rbrace :: rest /\ tail_ok x = true.
Proof.
  unfold match_at, re_include. cbn [run]. intros H.
  destruct (starts_with (T "\include{") s) eqn:E; [|discriminate].
  apply starts_with_true in E as [s1 ->].
  rewrite skipn_length_app in H.
  destruct s1 as [|c s2]; [discriminate|].
  cbn [rep pred option_map] in H.
  destruct (in_class (CDot false) c); [|discriminate].
  apply lazy_name_inv in H as (y & -> & Hy).
  exists (c :: y). split; [reflexivity|].
  unfold tail_ok. cbn [tl]. apply forallb_forall. intros e He.
  apply negb_true_iff, N.eqb_neq. intros ->. contradiction.
Qed.

(** Every item of [findall] is a match of the pattern. *)
Lemma findall_aux_elems (r : regex) (s : text) :
  forall (k : nat) (m : text),
    In m (findall_aux r k s) ->
    exists rest, match_at r (m ++ rest) = Some rest.
Proof.
  induction s as [|c s IH]; intros k m H.
  - cbn [findall_aux] in H.
    destruct (match_at r []) as [rest|] eqn:E; [|contradiction].
    destruct H as [<-|[]].
    pose proof (match_at_suffix _ _ E) as [pre P].
    symmetry in P. apply app_eq_nil in P as [_ ->].
    now exists [].
  - cbn [findall_aux] in H. destruct k as [|k]; [|eauto].
    destruct (match_at r (c :: s)) as [rest|] eqn:E; [|eauto].
    destruct H as [<-|H]; [|eauto].
    pose proof (match_at_suffix _ _ E) as [pre P].
    rewrite P in *. rewrite span_app, firstn_length_app. now exists rest.
Qed.

Lemma include_names_tail_ok (s x : text) :
  In x (findall_group re_include 9 1 s) -> tail_ok x = true.
Proof.
  unfold findall_group, findall. intros H.
  apply in_map_iff in H as (m & <- & Hm).
  apply findall_aux_elems in Hm as [rest Hm].
  apply match_include_inv in Hm as (x & E & Hx).
  replace (T "\include{" ++ x ++ rbrace :: rest)
    with ((T "\include{" ++ x ++ T "}") ++ rest) in E
    by now rewrite <- !app_assoc.
  apply app_inv_tail in E. subst m.
  assert (G : firstn (length (T "\include{" ++ x ++ T "}") - 9 - 1)
                     (skipn 9 (T "\include{" ++ x ++ T "}")) = x)
    by apply (group_between (T "\include{") x (T "}")).
  now rewrite G.
Qed.

Lemma marker_names_In (items : list item) (n : text) :
  In n (marker_names items) <-> In (Marker n) items.
Proof.
  unfold marker_names. rewrite in_flat_map. split.
  - intros ([t|m] & Hi & H); [contradiction|].
    destruct H as [<-|[]]. assumption.
  - intros H. exists (Marker n). split; [assumption | now left].
Qed.

(** ** The loop over the names *)

Lemma subst_item_marker (x c n : text) (items : list item) :
  In (Marker n) (map (subst_item x c) items) -> In (Marker n) items.
Proof.
  intros H. apply in_map_iff in H as ([t|m] & E & Hi); cbn in E.
  - discriminate.
  - destruct (text_eqb m x); [discriminate|]. now injection E as <-.
Qed.

Lemma subst_item_text (x c t : text) (items : list item) :
  In (Text t) (map (subst_item x c) items) ->
  In (Text t) items \/ (t = c /\ In (Marker x) items).
Proof.
  intros H. apply in_map_iff in H as ([t'|m] & E & Hi); cbn in E.
  - injection E as <-. now left.
  - destruct (text_eqb m x) eqn:Em; [|discriminate].
    apply text_eqb_eq in Em. subst m. injection E as <-. now right.
Qed.

(** The loop seen on the pieces, as long as no marker of a name of
    the loop starts inside a text or inside a file that is put in. *)
Lemma flatten_items (d : dict) (names : list text) :
  forall items : list item,
    (forall x, In x names -> tail_ok x = true) ->
    (forall n, In (Marker n) items -> good_name n = true) ->
    (forall t x, In (Text t) items -> In x names ->
                 clean (input_marker x) t = true) ->
    (forall n x, In (Marker n) items -> In x names ->
                 clean (input_marker x) (get_str d (file_name_of n)) = true) ->
    fold_left (substitute d) names (render items)
    = render (fold_left
                (fun its x => map (subst_item x (get_str d (file_name_of x))) its)
                names items).
Proof.
  induction names as [|x names IH]; intros items Hx Hm Ht Hc; [reflexivity|].
  cbn [fold_left]. unfold substitute at 2.
  rewrite replace_marker.
  - apply IH.
    + intros y Hy. apply Hx. now right.
    + intros n Hn. apply subst_item_marker in Hn. now apply Hm.
    + intros t y Hin Hy. apply subst_item_text in Hin as [Hin|[-> Hin]].
      * apply Ht; [assumption | now right].
      * apply Hc; [assumption | now right].
    + intros n y Hn Hy. apply subst_item_marker in Hn.
      apply Hc; [assumption | now right].
  - apply Hx. now left.
  - intros t Hin. apply Ht; [assumption | now left].
  - assumption.
Qed.

Lemma fold_subst_text (d : dict) (names : list text) (t : text) :
  fold_left (fun i x => subst_item x (get_str d (file_name_of x)) i)
            names (Text t) = Text t.
Proof. induction names; simpl; auto. Qed.

Lemma fold_subst_marker (d : dict) (names : list text) (n : text) :
  In n names ->
  fold_left (fun i x => subst_item x (get_str d (file_name_of x)) i)
            names (Marker n) = Text (get_str d (file_name_of n)).
Proof.
  induction names as [|x names IH]; intros H; [contradiction|].
  cbn [fold_left subst_item].
  destruct (text_eqb n x) eqn:E.
  - apply text_eqb_eq in E. subst x. apply fold_subst_text.
  - apply IH. apply text_eqb_neq in E. destruct H; congruence.
Qed.

Lemma fold_map_items (d : dict) (names : list text) :
  forall items : list item,
    fold_left
      (fun its x => map (subst_item x (get_str d (file_name_of x))) its)
      names items
    = map (fold_left
             (fun i x => subst_item x (get_str d (file_name_of x)) i) names)
          items.
Proof.
  induction names as [|x names IH]; intros items; cbn [fold_left].
  - now rewrite map_id.
  - rewrite IH, map_map. reflexivity.
Qed.

Lemma render_all_expanded (d : dict) (names : list text) (items : list item) :
  (forall n, In (Marker n) items -> In n names) ->
  render (fold_left
            (fun its x => map (subst_item x (get_str d (file_name_of x))) its)
            names items)
  = concat (map (expand d) items).
Proof.
  intros H. rewrite fold_map_items. unfold render. rewrite map_map.
  f_equal. apply map_ext_in. intros [t|n] Hi; cbn [expand].
  - now rewrite fold_subst_text.
  - rewrite fold_subst_marker by now apply H. reflexivity.
Qed.

(** The general statement: a main file made of clean texts and
    markers becomes its texts with the files in the places of the
    markers, if no marker of a name found in the main file starts
    inside a file that is put in. *)
Lemma flatten_render (d : dict) (items : list item) :
  forallb item_ok items = true ->
  (forall n x, In (Marker n) items -> In x (include_files (render items)) ->
               clean (input_marker x) (get_str d (file_name_of n)) = true) ->
  flatten d (render items) = concat (map (expand d) items).
Proof.
  intros Hok Hc. unfold flatten.
  assert (Hg : forall n, In (Marker n) items -> good_name n = true).
  { intros n Hn. rewrite forallb_forall in Hok. apply (Hok _ Hn). }
  rewrite flatten_items.
  - apply render_all_expanded. intros n Hn.
    unfold include_files. apply in_or_app. left.
    rewrite findall_group_input_render by assumption.
    now apply marker_names_In.
  - intros x Hin. unfold include_files in Hin.
    apply in_app_or in Hin as [Hin|Hin].
    + rewrite findall_group_input_render in Hin by assumption.
      apply marker_names_In in Hin. apply good_name_tail_ok. now apply Hg.
    + now apply include_names_tail_ok in Hin.
  - assumption.
  - intros t x Hin _. rewrite forallb_forall in Hok.
    specialize (Hok _ Hin). cbn [item_ok] in Hok.
    unfold input_marker. now apply clean_extend.
  - assumption.
Qed.

(** ** The entry [all] *)

Lemma read_all_fst_In (tar : archive) (l : list text) :
  forall (o : option text) (d : dict) (m : text),
    fst (fold_left (read_one tar) l (o, d)) = Some m -> o = Some m \/ In m l.
Proof.
  induction l as [|t l IH]; intros o d m H; [now left|].
  cbn [fold_left] in H. unfold read_one at 2 in H. cbn [fst snd] in H.
  apply IH in H as [H|H]; [|right; now right].
  destruct o as [m'|]; [now left|].
  destruct (has_document_block _); [|discriminate].
  injection H as <-. right. now left.
Qed.

Lemma main_tex_of_In (tar : archive) (m : text) :
  main_tex_of tar = Some m -> In m (tex_files_of tar).
Proof.
  unfold main_tex_of. intros H.
  apply read_all_fst_In in H as [H|H]; [|assumption].
  unfold main_tex_of_names in H.
  destruct (bbl_file_of tar) as [|b [|b' l]]; [| |discriminate].
  - destruct (1 <? length (tex_files_of tar)); [discriminate|].
    destruct (tex_files_of tar); [discriminate|].
    injection H as <-. now left.
  - destruct (mem (candidate b) (tex_files_of tar)) eqn:E; [|discriminate].
    injection H as <-. now apply mem_In.
Qed.

Lemma file_name_of_not_all (f : text) : T "all" <> file_name_of f.
Proof.
  intros C.
  assert (E : ends_with (T ".tex") (file_name_of f) = true).
  { unfold file_name_of. destruct (ends_with (T ".tex") f) eqn:E;
      [assumption | apply ends_with_app]. }
  rewrite <- C in E. discriminate.
Qed.

Lemma flatten_ext (d1 d2 : dict) (s : text) :
  (forall f, get_str d1 (file_name_of f) = get_str d2 (file_name_of f)) ->
  flatten d1 s = flatten d2 s.
Proof.
  intros H. unfold flatten.
  generalize (include_files s) as names. generalize s as s0.
  intros s0 names; revert s0.
  induction names as [|x names IH]; intros s0; [reflexivity|].
  cbn [fold_left]. unfold substitute at 2 4. rewrite H. apply IH.
Qed.

(** When a main file [m] is settled on, the entry [all] is the main
    file with its included files put in. *)
Lemma tex_all_flatten (tar : archive) (d : dict) (m : text) :
  tex (Some tar) = Some d -> main_tex_of tar = Some m ->
  get d (T "all") = Some (flatten d (content_of tar m)).
Proof.
  intros H Hm.
  destruct (tex_files_of tar) as [|t0 l0] eqn:E.
  { rewrite (tex_no_files _ E) in H. discriminate. }
  assert (Hf : tex_files_of tar <> []) by (rewrite E; discriminate).
  rewrite (tex_unfold tar Hf), Hm in H. cbn zeta in H. injection H as H.
  set (fc := snd (read_all tar (tex_files_of tar)
                    (main_tex_of_names (tex_files_of tar) (bbl_file_of tar))))
    in *.
  assert (Hs : get_str fc m = content_of tar m).
  { unfold get_str, fc, read_all. rewrite read_all_get; [reflexivity|].
    left. now apply main_tex_of_In. }
  assert (He : forall f, get_str fc (file_name_of f) = get_str d (file_name_of f)).
  { intros f. subst d. unfold get_str.
    rewrite dict_get_set_other by apply file_name_of_not_all. reflexivity. }
  rewrite <- (flatten_ext fc d _ He), <- Hs.
  subst d. unfold get. now rewrite dict_get_set_same.
Qed.


Lemma occurs_unfold (p s : text) :
  occurs p s
  = starts_with p s || match s with [] => false | _ :: s' => occurs p s' end.
Proof. destruct s; reflexivity. Qed.



Lemma occurs_app_r (p a b : text) :
  occurs p b = true -> occurs p (a ++ b) = true.
Proof.
  induction a as [|c a IH]; intros H; [assumption|].
  change ((c :: a) ++ b) with (c :: (a ++ b)). cbn [occurs].
  rewrite IH by assumption. apply orb_true_r.
Qed.








End Includes.

(* ================================================================== *)
(** * Patterns that match runs of one class *)
(* ================================================================== *)

Section ClassRuns.

Variable K : cclass.
Variable lo : nat.
Variable repl : text.
Hypothesis lo_pos : 0 < lo.

Lemma rep_greedy_run (w rest : text) :
  forall n, all_in K w = true -> n <= length w -> starts_out K rest = true ->
            rep true K n None (w ++ rest) (@Some text) = Some rest.
Proof.
  induction w as [|c w IH]; intros n Hw Hn Hr.
  - cbn [length] in Hn. assert (n = 0) by lia. subst n. cbn [app].
    destruct rest as [|e rest]; [reflexivity|].
    cbn [starts_out] in Hr. apply negb_true_iff in Hr.
    cbn [rep]. now rewrite Hr.
  - cbn [all_in forallb] in Hw. apply andb_true_iff in Hw as [Hc Hw].
    change ((c :: w) ++ rest) with (c :: (w ++ rest)).
    cbn [rep option_map]. rewrite Hc.
    destruct n as [|n]; cbn [pred].
    + rewrite IH; [reflexivity | assumption | lia | assumption].
    + apply IH; [assumption | cbn [length] in Hn; lia | assumption].
Qed.

Lemma rep_greedy_short (w rest : text) :
  forall n, all_in K w = true -> length w < n -> starts_out K rest = true ->
            rep true K n None (w ++ rest) (@Some text) = None.
Proof.
  induction w as [|c w IH]; intros n Hw Hn Hr.
  - destruct n as [|n]; [cbn [length] in Hn; lia|]. cbn [app].
    destruct rest as [|e rest]; [reflexivity|].
    cbn [starts_out] in Hr. apply negb_true_iff in Hr.
    cbn [rep]. now rewrite Hr.
  - cbn [all_in forallb] in Hw. apply andb_true_iff in Hw as [Hc Hw].
    destruct n as [|n]; [lia|].
    change ((c :: w) ++ rest) with (c :: (w ++ rest)).
    cbn [rep option_map pred]. rewrite Hc.
    apply IH; [assumption | cbn [length] in Hn; lia | assumption].
Qed.

Lemma run_match (w rest : text) :
  all_in K w = true -> lo <= length w -> starts_out K rest = true ->
  match_at (RRep true lo None K) (w ++ rest) = Some rest.
Proof. intros. unfold match_at. cbn [run]. now apply rep_greedy_run. Qed.

Lemma run_short (w rest : text) :
  all_in K w = true -> length w < lo -> starts_out K rest = true ->
  match_at (RRep true lo None K) (w ++ rest) = None.
Proof. intros. unfold match_at. cbn [run]. now apply rep_greedy_short. Qed.

Lemma run_none_nil : match_at (RRep true lo None K) [] = None.
Proof. apply (run_short [] []); [reflexivity | exact lo_pos | reflexivity]. Qed.

Lemma run_none_out (c : char) (u : text) :
  in_class K c = false -> match_at (RRep true lo None K) (c :: u) = None.
Proof.
  intros H. apply (run_short [] (c :: u)); [reflexivity | exact lo_pos |].
  cbn [starts_out]. now rewrite H.
Qed.

(** ** [sub] on a text cut into runs *)

Lemma sub_run_nil : sub (RRep true lo None K) repl [] = [].
Proof. apply sub_nil, run_none_nil. Qed.

Lemma sub_run_out (c : char) (u : text) :
  in_class K c = false -> sub (RRep true lo None K) repl (c :: u) = c :: sub (RRep true lo None K) repl u.
Proof. intros H. apply sub_nomatch. now apply run_none_out. Qed.

Lemma sub_run_long (w rest : text) :
  all_in K w = true -> lo <= length w -> starts_out K rest = true ->
  sub (RRep true lo None K) repl (w ++ rest) = repl ++ sub (RRep true lo None K) repl rest.
Proof.
  intros Hw Hl Hr. apply sub_match; [|now apply run_match].
  destruct w; [cbn [length] in Hl; lia | discriminate].
Qed.

Lemma sub_run_short (w rest : text) :
  all_in K w = true -> length w < lo -> starts_out K rest = true ->
  sub (RRep true lo None K) repl (w ++ rest) = w ++ sub (RRep true lo None K) repl rest.
Proof.
  induction w as [|c w IH]; intros Hw Hl Hr; [reflexivity|].
  change ((c :: w) ++ rest) with (c :: (w ++ rest)).
  rewrite sub_nomatch.
  - change ((c :: w) ++ sub (RRep true lo None K) repl rest) with (c :: (w ++ sub (RRep true lo None K) repl rest)).
    f_equal. cbn [all_in forallb] in Hw. apply andb_true_iff in Hw as [_ Hw].
    apply IH; [assumption | cbn [length] in Hl; lia | assumption].
  - change (c :: (w ++ rest)) with ((c :: w) ++ rest).
    now apply run_short.
Qed.

(** Every text is a run of [K], possibly empty, and a rest that does
    not begin in [K]. *)
Lemma run_split (u : text) :
  exists w rest, u = w ++ rest /\ all_in K w = true /\ starts_out K rest = true.
Proof.
  induction u as [|c u (w & rest & -> & Hw & Hr)].
  - now exists [], [].
  - destruct (in_class K c) eqn:E.
    + exists (c :: w), rest. repeat split; [|assumption].
      cbn [all_in forallb]. now rewrite E.
    + exists [], (c :: w ++ rest). repeat split.
      cbn [starts_out]. now rewrite E.
Qed.

(** Induction over a text cut into runs. *)
Lemma run_induction (P : text -> Prop) :
  P [] ->
  (forall c u, in_class K c = false -> P u -> P (c :: u)) ->
  (forall w rest, w <> [] -> all_in K w = true -> starts_out K rest = true ->
                  P rest -> P (w ++ rest)) ->
  forall u, P u.
Proof.
  intros Hnil Hout Hrun u.
  remember (length u) as n eqn:En. revert u En.
  induction n as [n IH] using lt_wf_ind. intros u En.
  destruct (run_split u) as (w & rest & -> & Hw & Hr).
  destruct w as [|c w].
  - cbn [app] in *. destruct rest as [|e rest]; [assumption|].
    cbn [starts_out] in Hr. apply negb_true_iff in Hr.
    apply Hout; [assumption|].
    apply (IH (length rest)); [cbn [length] in En; lia | reflexivity].
  - apply Hrun; [discriminate | assumption | assumption |].
    apply (IH (length rest)); [|reflexivity].
    rewrite En, length_app. cbn [length]. lia.
Qed.

Lemma sub_run_starts_out (u : text) :
  starts_out K u = true -> starts_out K (sub (RRep true lo None K) repl u) = true.
Proof.
  destruct u as [|c u]; intros H.
  - now rewrite sub_run_nil.
  - cbn [starts_out] in H. apply negb_true_iff in H.
    rewrite sub_run_out by assumption. cbn [starts_out]. now rewrite H.
Qed.

(** What [sub] does to a run and the rest after it. *)
Lemma sub_run_cases (w rest : text) :
  w <> [] -> all_in K w = true -> starts_out K rest = true ->
  exists x, sub (RRep true lo None K) repl (w ++ rest) = x ++ sub (RRep true lo None K) repl rest
            /\ (x = repl /\ lo <= length w \/ x = w /\ length w < lo).
Proof.
  intros Hne Hw Hr. destruct (le_lt_dec lo (length w)) as [L|L].
  - exists repl. split; [now apply sub_run_long | now left].
  - exists w. split; [now apply sub_run_short | now right].
Qed.

(** ** Applying [sub] twice *)

Lemma sub_run_idem :
  all_in K repl = true -> repl <> [] ->
  forall u, sub (RRep true lo None K) repl (sub (RRep true lo None K) repl u) = sub (RRep true lo None K) repl u.
Proof.
  intros Hk Hne. apply (run_induction).
  - now rewrite !sub_run_nil.
  - intros c u Hc IH. rewrite !sub_run_out by assumption. now rewrite IH.
  - intros w rest Hw Hin Hr IH.
    pose proof (sub_run_starts_out _ Hr) as Hr'.
    destruct (@sub_run_cases _ _ Hw Hin Hr) as (x & -> & [[-> _]|[-> L]]).
    + destruct (@sub_run_cases _ _ Hne Hk Hr') as (x & -> & [[-> _]|[-> _]]);
        now rewrite IH.
    + rewrite sub_run_short by assumption. now rewrite IH.
Qed.

(** ** Newlines and comments under [sub] *)

Lemma has_nl_app (x y : text) : has_nl (x ++ y) = has_nl x || has_nl y.
Proof. apply existsb_app. Qed.

Lemma all_in_nl_has_nl (w : text) :
  (forall c, in_class K c = true -> c = nl) ->
  w <> [] -> all_in K w = true -> has_nl w = true.
Proof.
  intros H Hne Hw. destruct w as [|c w]; [congruence|].
  cbn [all_in forallb] in Hw. apply andb_true_iff in Hw as [Hc _].
  apply H in Hc. subst c. reflexivity.
Qed.

Lemma sub_run_has_nl :
  (has_nl repl = true -> forall c, in_class K c = true -> c = nl) ->
  forall u, has_nl (sub (RRep true lo None K) repl u) = true -> has_nl u = true.
Proof.
  intros Hnl.
  apply (run_induction
           (fun u => has_nl (sub (RRep true lo None K) repl u) = true -> has_nl u = true));
    cbv beta.
  - now rewrite sub_run_nil.
  - intros c u Hc IH. rewrite sub_run_out by assumption.
    cbn [has_nl existsb]. intros H. apply orb_true_iff in H as [H|H].
    + now rewrite H.
    + fold (has_nl u). rewrite IH by assumption. apply orb_true_r.
  - intros w rest Hw Hin Hr IH.
    destruct (@sub_run_cases _ _ Hw Hin Hr) as (x & -> & Hx).
    rewrite !has_nl_app. intros H. apply orb_true_iff in H as [H|H].
    + destruct Hx as [[-> _]|[-> _]].
      * rewrite (all_in_nl_has_nl (Hnl H) Hw Hin). reflexivity.
      * now rewrite H.
    + rewrite IH by assumption. apply orb_true_r.
Qed.

Lemma comment_free_app_clear (x y : text) :
  ~ In percent x -> comment_free (x ++ y) = comment_free y.
Proof.
  induction x as [|c x IH]; intros H; [reflexivity|].
  change ((c :: x) ++ y) with (c :: (x ++ y)). cbn [comment_free].
  assert (E : N.eqb c percent = false)
    by (apply N.eqb_neq; simpl in H; intuition congruence).
  rewrite E. cbn [negb orb andb]. apply IH. simpl in H; tauto.
Qed.

Lemma all_in_no_percent (w : text) :
  in_class K percent = false -> all_in K w = true -> ~ In percent w.
Proof.
  intros Hp Hw C. unfold all_in in Hw. rewrite forallb_forall in Hw.
  specialize (Hw _ C). congruence.
Qed.

Lemma sub_run_comment_free :
  in_class K percent = false -> ~ In percent repl ->
  (has_nl repl = true -> forall c, in_class K c = true -> c = nl) ->
  forall u, comment_free u = true -> comment_free (sub (RRep true lo None K) repl u) = true.
Proof.
  intros Hp Hpr Hnl.
  apply (run_induction
           (fun u => comment_free u = true ->
                     comment_free (sub (RRep true lo None K) repl u) = true));
    cbv beta.
  - now rewrite sub_run_nil.
  - intros c u Hc IH H. rewrite sub_run_out by assumption.
    cbn [comment_free] in *. apply andb_true_iff in H as [H1 H2].
    rewrite IH by assumption. rewrite andb_true_r.
    apply orb_true_iff in H1 as [H1|H1]; [now rewrite H1|].
    destruct (has_nl (sub (RRep true lo None K) repl u)) eqn:E; [|apply orb_true_r].
    apply (sub_run_has_nl Hnl) in E. rewrite E in H1. discriminate.
  - intros w rest Hw Hin Hr IH H.
    rewrite comment_free_app_clear in H by now apply all_in_no_percent.
    destruct (@sub_run_cases _ _ Hw Hin Hr) as (x & -> & [[-> _]|[-> _]]).
    + rewrite comment_free_app_clear by assumption. now apply IH.
    + rewrite comment_free_app_clear by now apply all_in_no_percent.
      now apply IH.
Qed.

End ClassRuns.

(* ================================================================== *)
(** * Stripping twice *)
(* ================================================================== *)

Section Idempotence.

(** [sub] only brings in characters of the replacement. *)
Lemma sub_aux_incl (r : regex) (repl s : text) :
  forall (k : nat) (c : char),
    In c (sub_aux r repl k s) -> In c s \/ In c repl.
Proof.
  induction s as [|e s IH]; intros k c H; cbn [sub_aux] in H.
  - destruct (match_at r []); [now right | contradiction].
  - assert (R : forall k', In c (sub_aux r repl k' s) ->
                           In c (e :: s) \/ In c repl).
    { intros k' H'. apply IH in H' as [H'|H']; [left; now right | now right]. }
    destruct k as [|k]; [|eauto].
    destruct (match_at r (e :: s)) as [rest|].
    + destruct (span (e :: s) rest).
      * apply in_app_or in H as [H|H]; [now right|].
        destruct H as [<-|H]; [left; now left | eauto].
      * apply in_app_or in H as [H|H]; [now right | eauto].
    + destruct H as [<-|H]; [left; now left | eauto].
Qed.

Lemma sub_keeps_out (r : regex) (repl s : text) (c : char) :
  ~ In c s -> ~ In c repl -> ~ In c (sub r repl s).
Proof.
  intros Hs Hr H. apply sub_aux_incl in H. tauto.
Qed.

Lemma clean_backslash (p t : text) :
  ~ In backslash t -> clean (backslash :: p) t = true.
Proof. apply clean_no_head. Qed.

(** A text without backslash has no comment block, no [\iffalse]
    block and no line break to remove. *)
Lemma remove_comment_blocks_plain (t : text) :
  ~ In backslash t -> remove_comment_blocks t = t.
Proof.
  intros H. apply sub_clean; [discriminate|].
  now apply (clean_backslash (T "begin{comment}")).
Qed.

Lemma remove_iffalse_plain (t : text) :
  ~ In backslash t -> remove_iffalse t = t.
Proof.
  intros H. apply sub_clean; [discriminate|].
  now apply (clean_backslash (T "iffalse")).
Qed.

Lemma remove_linebreaks_plain (t : text) :
  ~ In backslash t -> remove_linebreaks t = t.
Proof.
  intros H. apply sub_lit_clean; [discriminate|].
  now apply (clean_backslash [backslash]).
Qed.

Lemma strip_plain (t : text) :
  ~ In backslash t ->
  strip t = collapse_spaces (collapse_newlines (remove_line_comments t)).
Proof.
  intros H. unfold strip.
  assert (H1 : ~ In backslash (remove_line_comments t)).
  { apply sub_keeps_out; [assumption|]. intros [C|[]]. discriminate. }
  rewrite (remove_comment_blocks_plain _ H1).
  rewrite (remove_iffalse_plain _ H1).
  rewrite remove_linebreaks_plain; [reflexivity|].
  apply sub_keeps_out; [assumption|]. intros [C|[]]. discriminate.
Qed.

Lemma strip_plain_keeps (t : text) :
  ~ In backslash t -> ~ In backslash (strip t).
Proof.
  intros H. rewrite strip_plain by assumption.
  apply sub_keeps_out; [|intros [C|[]]; discriminate].
  apply sub_keeps_out; [|intros [C|[]]; discriminate].
  apply sub_keeps_out; [assumption|intros [C|[]]; discriminate].
Qed.

(** ** Line comments *)

Lemma has_nl_false (s : text) : has_nl s = false <-> ~ In nl s.
Proof.
  unfold has_nl. split.
  - intros H C. assert (E : existsb (N.eqb nl) s = true).
    { apply existsb_exists. exists nl. split; [assumption | apply N.eqb_refl]. }
    congruence.
  - intros H. destruct (existsb (N.eqb nl) s) eqn:E; [|reflexivity].
    apply existsb_exists in E as (c & Hc & E). apply N.eqb_eq in E.
    subst c. contradiction.
Qed.

Lemma no_nl_comment_free (s : text) : has_nl s = false -> comment_free s = true.
Proof.
  induction s as [|c s IH]; intros H; [reflexivity|].
  cbn [has_nl existsb] in H. apply orb_false_iff in H as [_ H].
  fold (has_nl s) in H. cbn [comment_free].
  rewrite H, IH by assumption. cbn [negb]. now rewrite orb_true_r.
Qed.

Lemma line_split (s : text) :
  exists line rest,
    s = line ++ rest /\ ~ In nl line /\ (rest = [] \/ exists r, rest = nl :: r).
Proof.
  induction s as [|c s (line & rest & -> & Hl & Hr)].
  - exists [], []. intuition.
  - destruct (N.eqb_spec c nl) as [->|Hc].
    + exists [], (nl :: line ++ rest). split; [reflexivity|].
      split; [intros []|]. right. eauto.
    + exists (c :: line), rest. split; [reflexivity|].
      split; [|assumption]. simpl. intuition.
Qed.

Lemma remove_line_comments_fixed (u : text) :
  comment_free u = true -> remove_line_comments u = u.
Proof.
  unfold remove_line_comments.
  induction u as [|c u IH]; intros H; [reflexivity|].
  cbn [comment_free] in H. apply andb_true_iff in H as [H1 H2].
  rewrite sub_nomatch; [now rewrite IH|].
  destruct (N.eqb_spec c percent) as [->|Hc].
  - cbn [negb orb] in H1. apply negb_true_iff in H1.
    apply line_comment_no_match. now apply has_nl_false.
  - apply match_at_lit_fail. apply (@starts_with_head [] u percent c).
    congruence.
Qed.

Lemma remove_line_comments_comment_free (t : text) :
  comment_free (remove_line_comments t) = true.
Proof.
  remember (length t) as n eqn:En. revert t En.
  induction n as [n IH] using lt_wf_ind. intros t En.
  destruct t as [|c t]; [reflexivity|].
  destruct (N.eqb_spec c percent) as [->|Hc].
  - destruct (line_split t) as (line & rest & -> & Hl & [->|[r ->]]).
    + rewrite app_nil_r.
      unfold remove_line_comments.
      rewrite sub_nomatch by now apply line_comment_no_match.
      fold (remove_line_comments line).
      rewrite remove_line_comments_no_nl by assumption.
      apply has_nl_false in Hl. cbn [comment_free]. rewrite Hl.
      cbn [negb orb andb]. now apply no_nl_comment_free.
    + unfold remove_line_comments.
      change (percent :: line ++ nl :: r)
        with ((percent :: line) ++ [nl] ++ r).
      rewrite app_assoc.
      rewrite (@sub_match re_line_comment [nl] ((percent :: line) ++ [nl]) r);
        [|discriminate | now apply line_comment_match].
      fold (remove_line_comments r). cbn [app comment_free].
      change (N.eqb nl percent) with false. cbn [negb orb andb].
      apply (IH (length r)); [|reflexivity].
      rewrite En. cbn [length]. rewrite length_app. cbn [length]. lia.
  - unfold remove_line_comments. rewrite sub_nomatch.
    + fold (remove_line_comments t). cbn [comment_free].
      apply N.eqb_neq in Hc. rewrite Hc. cbn [negb orb andb].
      apply (IH (length t)); [rewrite En; cbn [length]; lia | reflexivity].
    + apply match_at_lit_fail. apply (@starts_with_head [] t percent c).
      congruence.
Qed.

(** ** Newlines *)

Lemma one_pos : 0 < 1.
Proof. lia. Qed.

Lemma three_pos : 0 < 3.
Proof. lia. Qed.

Lemma single_nl_app_clear (x y : text) :
  ~ In nl x -> single_nl (x ++ y) = single_nl y.
Proof.
  induction x as [|c x IH]; intros H; [reflexivity|].
  change ((c :: x) ++ y) with (c :: (x ++ y)). cbn [single_nl].
  assert (E : N.eqb c nl = false)
    by (apply N.eqb_neq; simpl in H; intuition congruence).
  rewrite E. cbn [andb negb]. apply IH. simpl in H; tauto.
Qed.

Lemma collapse_newlines_single (a : text) :
  single_nl (collapse_newlines a) = true.
Proof.
  unfold collapse_newlines, re_newlines.
  apply (run_induction (CChr nl) one_pos
           (fun a => single_nl (sub (RRep true 1 None (CChr nl)) [nl] a) = true));
    cbv beta.
  - now rewrite sub_run_nil by exact one_pos.
  - intros c u Hc IH. rewrite sub_run_out by (exact one_pos || assumption).
    cbn [single_nl]. cbn [in_class] in Hc. rewrite Hc, IH. reflexivity.
  - intros w rest Hw Hin Hr IH.
    rewrite sub_run_long; try assumption; try exact one_pos.
    + cbn [app single_nl]. rewrite IH.
      rewrite (sub_run_starts_out (CChr nl) [nl] one_pos _ Hr).
      now rewrite N.eqb_refl.
    + destruct w; [congruence | cbn [length]; lia].
Qed.

Lemma collapse_newlines_fixed (u : text) :
  single_nl u = true -> collapse_newlines u = u.
Proof.
  unfold collapse_newlines, re_newlines.
  induction u as [|c u IH]; intros H.
  - now apply sub_run_nil, one_pos.
  - cbn [single_nl] in H. apply andb_true_iff in H as [H1 H2].
    destruct (N.eqb_spec c nl) as [->|Hc].
    + cbn [andb] in H1. apply negb_true_iff, negb_false_iff in H1.
      change (nl :: u) with ([nl] ++ u) at 1.
      rewrite (sub_run_long (CChr nl) [nl] one_pos [nl] u);
        [now rewrite IH | reflexivity | cbn [length]; lia | assumption].
    + rewrite sub_run_out; [now rewrite IH | exact one_pos |].
      cbn [in_class]. now apply N.eqb_neq.
Qed.

Lemma collapse_newlines_comment_free (u : text) :
  comment_free u = true -> comment_free (collapse_newlines u) = true.
Proof.
  apply (sub_run_comment_free (CChr nl) [nl] one_pos).
  - reflexivity.
  - intros [C|[]]. discriminate.
  - intros _ c Hc. cbn [in_class] in Hc. now apply N.eqb_eq.
Qed.

(** ** Spaces *)

Lemma spaces_no_nl (w : text) : all_in spaces w = true -> ~ In nl w.
Proof.
  intros Hw C. unfold all_in in Hw. rewrite forallb_forall in Hw.
  specialize (Hw _ C). discriminate.
Qed.

Lemma collapse_spaces_idem (u : text) :
  collapse_spaces (collapse_spaces u) = collapse_spaces u.
Proof.
  apply (@sub_run_idem spaces 3 (T " ") three_pos); [reflexivity | discriminate].
Qed.

Lemma collapse_spaces_comment_free (u : text) :
  comment_free u = true -> comment_free (collapse_spaces u) = true.
Proof.
  apply (sub_run_comment_free spaces (T " ") three_pos).
  - reflexivity.
  - intros [C|[]]. discriminate.
  - discriminate.
Qed.

(** [collapse_spaces] leaves a first newline where it is and puts
    none in front. *)
Lemma collapse_spaces_head_nl (u : text) :
  starts_out (CChr nl) (collapse_spaces u) = starts_out (CChr nl) u.
Proof.
  unfold collapse_spaces, re_spaces. fold spaces.
  destruct (run_split spaces u) as (w & rest & -> & Hw & Hr).
  destruct w as [|c w].
  - cbn [app]. destruct rest as [|e rest].
    + now rewrite sub_run_nil by exact three_pos.
    + cbn [starts_out] in Hr. apply negb_true_iff in Hr.
      now rewrite sub_run_out by (exact three_pos || assumption).
  - assert (Hc : N.eqb c nl = false).
    { apply N.eqb_neq. intros ->. apply (spaces_no_nl _ Hw). now left. }
    destruct (@sub_run_cases spaces 3 (T " ") three_pos (c :: w) rest)
      as (x & -> & [[-> _]|[-> _]]);
      try assumption; try discriminate.
    + cbn [app starts_out in_class]. now rewrite Hc.
    + reflexivity.
Qed.

Lemma collapse_spaces_single (u : text) :
  single_nl u = true -> single_nl (collapse_spaces u) = true.
Proof.
  pose proof collapse_spaces_head_nl as Hd.
  unfold collapse_spaces, re_spaces in *. fold spaces in *.
  apply (run_induction spaces three_pos
           (fun u => single_nl u = true ->
                     single_nl (sub (RRep true 3 None spaces) (T " ") u) = true));
    cbv beta.
  - now rewrite sub_run_nil by exact three_pos.
  - intros c v Hc IH H. rewrite sub_run_out by (exact three_pos || assumption).
    cbn [single_nl] in *. apply andb_true_iff in H as [H1 H2].
    now rewrite Hd, H1, IH.
  - intros w rest Hne Hw Hr IH H.
    rewrite single_nl_app_clear in H by now apply spaces_no_nl.
    destruct (@sub_run_cases spaces 3 (T " ") three_pos w rest)
      as (x & -> & [[-> _]|[-> _]]); try assumption.
    + rewrite single_nl_app_clear; [now apply IH|].
      intros [C|[]]. discriminate.
    + rewrite single_nl_app_clear by now apply spaces_no_nl.
      now apply IH.
Qed.

(** ** The whole transform on a text without backslash *)

Lemma strip_plain_idem (t : text) :
  ~ In backslash t -> strip (strip t) = strip t.
Proof.
  intros H.
  rewrite (strip_plain (strip t)) by now apply strip_plain_keeps.
  rewrite (strip_plain t) by assumption.
  set (a := remove_line_comments t).
  set (b := collapse_newlines a).
  rewrite remove_line_comments_fixed.
  - rewrite collapse_newlines_fixed.
    + apply collapse_spaces_idem.
    + apply collapse_spaces_single, collapse_newlines_single.
  - apply collapse_spaces_comment_free, collapse_newlines_comment_free.
    apply remove_line_comments_comment_free.
Qed.

Lemma tex_entry (tar : archive) (d : dict) (t : text) :
  tex (Some tar) = Some d -> In t (tex_files_of tar) ->
  dict_get d t = Some (Some (strip (decode_ignore (read tar t)))).
Proof.
  intros H Ht.
  assert (Hf : tex_files_of tar <> []) by (intros E; now rewrite E in Ht).
  rewrite (tex_unfold tar Hf) in H. injection H as <-.
  rewrite dict_get_set_other.
  - unfold read_all. apply read_all_get. now left.
  - intros C. apply tex_files_end in Ht. rewrite <- C in Ht. discriminate.
Qed.

Section Fixpoints.

(** ** Lengths *)

Lemma sub_aux_empty_length (r : regex) (s : text) :
  forall k, length (sub_aux r [] k s) + Nat.min k (length s) <= length s.
Proof.
  induction s as [|c s IH]; intros k.
  - cbn [sub_aux length]. destruct (match_at r []); cbn [length]; lia.
  - cbn [sub_aux length]. destruct k as [|k].
    + destruct (match_at r (c :: s)) as [rest|].
      * destruct (span (c :: s) rest) as [|n] eqn:E.
        -- cbn [app length]. specialize (IH 0). lia.
        -- cbn [app]. specialize (IH n).
           assert (n <= length s).
           { unfold span in E. cbn [length] in E. lia. }
           lia.
      * cbn [length]. specialize (IH 0). lia.
    + specialize (IH k). lia.
Qed.

Lemma sub_empty_length (r : regex) (s : text) :
  length (sub r [] s) <= length s.
Proof. pose proof (sub_aux_empty_length r s 0). unfold sub. lia. Qed.

(** A pattern whose matches are never empty: where it finds
    something, the text gets shorter. *)
Lemma sub_empty_same_length (r : regex) :
  (forall s rest, match_at r s = Some rest -> length rest < length s) ->
  forall s, length (sub r [] s) = length s -> search r s = None.
Proof.
  intros NE. induction s as [|c s IH]; intros H.
  - cbn [search]. destruct (match_at r []) as [rest|] eqn:E; [|reflexivity].
    apply NE in E. cbn [length] in E. lia.
  - unfold sub in H. cbn [sub_aux] in H. cbn [search].
    destruct (match_at r (c :: s)) as [rest|] eqn:E.
    + exfalso. pose proof (NE _ _ E) as L.
      unfold span in H. cbn [length] in H, L.
      destruct (S (length s) - length rest) as [|n] eqn:F; [lia|].
      cbn [app] in H. pose proof (sub_aux_empty_length r s n). lia.
    + cbn [length] in H. apply IH. unfold sub. lia.
Qed.

Lemma sub_search_none (r : regex) (repl s : text) :
  search r s = None -> sub r repl s = s.
Proof.
  induction s as [|c s IH]; intros H.
  - cbn [search] in H. apply sub_nil.
    now destruct (match_at r []).
  - cbn [search] in H. destruct (match_at r (c :: s)) eqn:E; [discriminate|].
    rewrite sub_nomatch by assumption. now rewrite IH.
Qed.

Lemma lit_seq_nonempty (l : text) (r : regex) (s rest : text) :
  l <> [] -> match_at (RSeq (RLit l) r) s = Some rest ->
  length rest < length s.
Proof.
  intros Hl H. unfold match_at in H. cbn [run] in H.
  destruct (starts_with l s) eqn:E; [|discriminate].
  apply starts_with_true in E as [s1 ->]. rewrite skipn_length_app in H.
  apply run_suffix in H as (pre & rest' & -> & F). injection F as ->.
  rewrite !length_app. destruct l; [congruence | cbn [length]; lia].
Qed.

Lemma lit_nonempty (l s rest : text) :
  l <> [] -> match_at (RLit l) s = Some rest -> length rest < length s.
Proof.
  intros Hl H. unfold match_at in H. cbn [run] in H.
  destruct (starts_with l s) eqn:E; [|discriminate].
  apply starts_with_true in E as [s1 ->]. rewrite skipn_length_app in H.
  injection H as ->.
  rewrite !length_app. destruct l; [congruence | cbn [length]; lia].
Qed.

End Fixpoints.

Section RunLengths.
Variable K : cclass.
Variable lo : nat.
Variable repl : text.
Hypothesis lo_pos : 0 < lo.
Hypothesis repl_le : length repl <= lo.

Lemma sub_run_length (u : text) :
  length (sub (RRep true lo None K) repl u) <= length u.
Proof.
  revert u.
  apply (run_induction K lo_pos
           (fun u => length (sub (RRep true lo None K) repl u) <= length u));
    cbv beta.
  - now rewrite sub_run_nil by exact lo_pos.
  - intros c u Hc IH. rewrite sub_run_out by assumption. cbn [length]. lia.
  - intros w rest Hne Hw Hr IH.
    destruct (@sub_run_cases K lo repl lo_pos w rest Hne Hw Hr)
      as (x & -> & [[-> L]|[-> L]]); rewrite !length_app; lia.
Qed.

(** When a long run has the length of the replacement only if it is
    the replacement, a substitution that keeps the length changes
    nothing. *)
Lemma sub_run_same_length :
  (forall w, all_in K w = true -> lo <= length w ->
             length w = length repl -> w = repl) ->
  forall u, length (sub (RRep true lo None K) repl u) = length u ->
            sub (RRep true lo None K) repl u = u.
Proof.
  intros Hw.
  apply (run_induction K lo_pos
           (fun u => length (sub (RRep true lo None K) repl u) = length u ->
                     sub (RRep true lo None K) repl u = u));
    cbv beta.
  - now rewrite sub_run_nil by exact lo_pos.
  - intros c u Hc IH. rewrite sub_run_out by assumption. cbn [length].
    intros H. f_equal. apply IH. lia.
  - intros w rest Hne Hin Hr IH.
    pose proof (sub_run_length rest) as Lr.
    destruct (@sub_run_cases K lo repl lo_pos w rest Hne Hin Hr)
      as (x & -> & [[-> L]|[-> L]]); rewrite !length_app; intros H.
    + rewrite IH by lia. f_equal. symmetry. apply Hw; [assumption | lia | lia].
    + rewrite IH by lia. reflexivity.
Qed.

End RunLengths.

Section Preserved.

Lemma has_nl_sub_aux (r : regex) (s : text) (k : nat) :
  has_nl (sub_aux r [] k s) = true -> has_nl s = true.
Proof.
  intros H. unfold has_nl in *. apply existsb_exists in H as (c & Hc & E).
  apply existsb_exists. exists c. split; [|assumption].
  apply sub_aux_incl in Hc as [Hc|[]]. assumption.
Qed.

(** Taking pieces out of a text brings no newline behind a [%]. *)
Lemma sub_aux_empty_comment_free (r : regex) (s : text) :
  forall k, comment_free s = true -> comment_free (sub_aux r [] k s) = true.
Proof.
  induction s as [|c s IH]; intros k H.
  - cbn [sub_aux]. now destruct (match_at r []).
  - cbn [comment_free] in H. apply andb_true_iff in H as [H1 H2].
    assert (C : comment_free (c :: sub_aux r [] 0 s) = true).
    { cbn [comment_free]. rewrite IH by assumption. rewrite andb_true_r.
      apply orb_true_iff in H1 as [H1|H1]; [now rewrite H1|].
      apply orb_true_iff. right. apply negb_true_iff.
      apply negb_true_iff in H1.
      destruct (has_nl (sub_aux r [] 0 s)) eqn:E; [|reflexivity].
      apply has_nl_sub_aux in E. congruence. }
    cbn [sub_aux]. destruct k as [|k]; [|now apply IH].
    destruct (match_at r (c :: s)) as [rest|]; [|assumption].
    destruct (span (c :: s) rest); cbn [app]; [assumption | now apply IH].
Qed.

Lemma sub_empty_comment_free (r : regex) (s : text) :
  comment_free s = true -> comment_free (sub r [] s) = true.
Proof. apply sub_aux_empty_comment_free. Qed.

(** A substitution that puts in one character [e] makes no new
    occurrence of a word without [e]. *)
Lemma starts_with_sub_char (r : regex) (e : char) (s : text) :
  forall q, ~ In e q ->
            starts_with q (sub_aux r [e] 0 s) = true -> starts_with q s = true.
Proof.
  induction s as [|c s IH]; intros [|a q] Hq H; try reflexivity.
  - cbn [sub_aux] in H. destruct (match_at r []); [|discriminate].
    cbn [starts_with] in H. apply andb_true_iff in H as [H _].
    apply N.eqb_eq in H. subst a. exfalso. apply Hq. now left.
  - assert (Head : forall x, starts_with (a :: q) (e :: x) = false).
    { intros x. cbn [starts_with].
      destruct (N.eqb_spec a e) as [->|]; [|reflexivity].
      exfalso. apply Hq. now left. }
    cbn [sub_aux] in H. destruct (match_at r (c :: s)) as [rest|].
    + destruct (span (c :: s) rest); cbn [app] in H;
        rewrite Head in H; discriminate.
    + cbn [starts_with] in *. apply andb_true_iff in H as [H1 H2].
      rewrite H1. apply IH; [|assumption]. intros C. apply Hq. now right.
Qed.

Lemma occurs_sub_aux_char (r : regex) (e : char) (p : text) (s : text) :
  p <> [] -> ~ In e p ->
  forall k, occurs p (sub_aux r [e] k s) = true -> occurs p s = true.
Proof.
  intros Hp He.
  assert (Head : forall x, starts_with p (e :: x) = false).
  { intros x. destruct p as [|a p]; [congruence|]. cbn [starts_with].
    destruct (N.eqb_spec a e) as [->|]; [|reflexivity].
    exfalso. apply He. now left. }
  induction s as [|c s IH]; intros k H.
  - cbn [sub_aux] in H. destruct (match_at r []).
    + cbn [occurs] in H. rewrite Head in H.
      now rewrite starts_with_nil_r in H by assumption.
    + assumption.
  - assert (Keep : occurs p (c :: sub_aux r [e] 0 s) = true ->
                   occurs p (c :: s) = true).
    { intros K. rewrite occurs_unfold in K. rewrite occurs_unfold.
      apply orb_true_iff in K as [K|K]; apply orb_true_iff.
      - left. destruct p as [|a q]; [reflexivity|].
        cbn [starts_with] in *. apply andb_true_iff in K as [K1 K2].
        rewrite K1. apply (@starts_with_sub_char r e s q); [|assumption].
        intros C. apply He. now right.
      - right. now apply (IH 0). }
    rewrite (occurs_unfold p (c :: s)).
    cbn [sub_aux] in H. destruct k as [|k].
    + destruct (match_at r (c :: s)) as [rest|].
      * destruct (span (c :: s) rest) as [|n]; cbn [app] in H;
          rewrite occurs_unfold, Head in H; cbn [orb] in H.
        -- rewrite <- occurs_unfold. now apply Keep.
        -- apply orb_true_iff. right. now apply (IH n).
      * rewrite <- occurs_unfold. now apply Keep.
    + apply orb_true_iff. right. now apply (IH k).
Qed.

Lemma occurs_sub_char (r : regex) (e : char) (p s : text) :
  p <> [] -> ~ In e p ->
  occurs p s = false -> occurs p (sub r [e] s) = false.
Proof.
  intros Hp He H. destruct (occurs p (sub r [e] s)) eqn:E; [|reflexivity].
  apply (@occurs_sub_aux_char r e p s Hp He 0) in E. congruence.
Qed.

Lemma occurs_false_head (p : text) (c : char) (s : text) :
  occurs p (c :: s) = false ->
  starts_with p (c :: s) = false /\ occurs p s = false.
Proof. rewrite occurs_unfold. apply orb_false_iff. Qed.

(** A pattern that begins with a word finds nothing in a text without
    that word. *)
Lemma sub_no_occurrence (l : text) (r : regex) (repl s : text) :
  l <> [] -> occurs l s = false -> sub (RSeq (RLit l) r) repl s = s.
Proof.
  intros Hl. induction s as [|c s IH]; intros H.
  - apply sub_nil, match_at_lit_fail. now apply starts_with_nil_r.
  - apply occurs_false_head in H as [H1 H2].
    rewrite sub_nomatch by now apply match_at_lit_fail.
    now rewrite IH.
Qed.

Lemma sub_lit_no_occurrence (l repl s : text) :
  l <> [] -> occurs l s = false -> sub (RLit l) repl s = s.
Proof.
  intros Hl. induction s as [|c s IH]; intros H.
  - apply sub_nil, match_at_lit_only_fail. now apply starts_with_nil_r.
  - apply occurs_false_head in H as [H1 H2].
    rewrite sub_nomatch by now apply match_at_lit_only_fail.
    now rewrite IH.
Qed.

(** After the double backslashes are taken out, left to right, none
    is left. *)
Lemma remove_linebreaks_none_left (x : text) :
  occurs (T "\\") (remove_linebreaks x) = false.
Proof.
  unfold remove_linebreaks, re_linebreak.
  remember (length x) as n eqn:En. revert x En.
  induction n as [n IH] using lt_wf_ind. intros x En.
  destruct x as [|c x]; [reflexivity|].
  destruct (starts_with (T "\\") (c :: x)) eqn:E.
  - apply starts_with_true in E as [y E]. rewrite E.
    rewrite sub_match with (pre := T "\\") (rest := y).
    + cbn [app]. apply (IH (length y)); [|reflexivity].
      subst n. rewrite E. rewrite length_app. cbn [length T]. simpl. lia.
    + discriminate.
    + unfold match_at. cbn [run]. now rewrite starts_with_app, skipn_length_app.
  - rewrite sub_nomatch by now apply match_at_lit_only_fail.
    rewrite occurs_unfold.
    rewrite (IH (length x)); [|subst n; cbn [length]; lia | reflexivity].
    rewrite orb_false_r.
    destruct (N.eqb_spec c backslash) as [->|Hc].
    + destruct x as [|e x]; [reflexivity|].
      assert (He : e <> backslash).
      { intros ->. discriminate. }
      rewrite sub_nomatch.
      * change (T "\\") with [backslash; backslash]. cbn [starts_with].
        apply N.eqb_neq in He. rewrite N.eqb_sym in He. rewrite He.
        now rewrite andb_false_r.
      * apply match_at_lit_only_fail.
        change (T "\\") with [backslash; backslash]. cbn [starts_with].
        apply N.eqb_neq in He. rewrite N.eqb_sym in He. now rewrite He.
    + change (T "\\") with [backslash; backslash]. cbn [starts_with].
      apply N.eqb_neq in Hc. rewrite N.eqb_sym in Hc. now rewrite Hc.
Qed.

End Preserved.

Section Twice.

Lemma strip_comment_free (t : text) : comment_free (strip t) = true.
Proof.
  unfold strip.
  apply collapse_spaces_comment_free. apply sub_empty_comment_free.
  apply collapse_newlines_comment_free.
  apply sub_empty_comment_free, sub_empty_comment_free.
  apply remove_line_comments_comment_free.
Qed.

Lemma strip_no_linebreak (t : text) : occurs (T "\\") (strip t) = false.
Proof.
  unfold strip, collapse_spaces.
  apply occurs_sub_char; [discriminate | vm_compute; intuition discriminate |].
  apply remove_linebreaks_none_left.
Qed.

Lemma strip_spaces_fixed (t : text) : collapse_spaces (strip t) = strip t.
Proof. unfold strip. apply collapse_spaces_idem. Qed.

Lemma newline_run_is_one (w : text) :
  all_in (CChr nl) w = true -> 1 <= length w ->
  length w = length [nl] -> w = [nl].
Proof.
  destruct w as [|c [|e w]]; cbn [length]; intros H L E; try lia.
  cbn [all_in forallb in_class] in H. rewrite andb_true_r in H.
  apply N.eqb_eq in H. now subst c.
Qed.

(** A text that has no line comment, no double backslash and no long
    run of spaces is left as it is exactly when it has no comment
    block, no [\iffalse] block and no two newlines in a row. *)
Lemma strip_fixed_iff (u : text) :
  comment_free u = true -> occurs (T "\\") u = false ->
  collapse_spaces u = u ->
  strip u = u
  <-> search re_comment_block u = None
      /\ search re_iffalse u = None
      /\ single_nl u = true.
Proof.
  intros Hc Hb Hs. unfold strip.
  rewrite (remove_line_comments_fixed u Hc). split.
  - intros H.
    pose proof (sub_empty_length re_comment_block u) as L1.
    fold (remove_comment_blocks u) in L1.
    pose proof (sub_empty_length re_iffalse (remove_comment_blocks u)) as L2.
    fold (remove_iffalse (remove_comment_blocks u)) in L2.
    pose proof (@sub_run_length (CChr nl) 1 [nl] one_pos (le_n 1)
                  (remove_iffalse (remove_comment_blocks u))) as L3.
    fold re_newlines in L3.
    fold (collapse_newlines (remove_iffalse (remove_comment_blocks u))) in L3.
    pose proof (sub_empty_length re_linebreak
                  (collapse_newlines
                     (remove_iffalse (remove_comment_blocks u)))) as L4.
    fold (remove_linebreaks
            (collapse_newlines (remove_iffalse (remove_comment_blocks u))))
      in L4.
    assert (L5 : 1 <= 3) by lia.
    pose proof (@sub_run_length spaces 3 (T " ") three_pos L5
                  (remove_linebreaks
                     (collapse_newlines
                        (remove_iffalse (remove_comment_blocks u))))) as L6.
    change (sub (RRep true 3 None spaces) (T " ")) with collapse_spaces in L6.
    rewrite H in L6.
    assert (S1 : search re_comment_block u = None).
    { apply sub_empty_same_length.
      - intros s rest. apply lit_seq_nonempty. discriminate.
      - unfold remove_comment_blocks in *. lia. }
    assert (E1 : remove_comment_blocks u = u) by now apply sub_search_none.
    rewrite E1 in *.
    assert (S2 : search re_iffalse u = None).
    { apply sub_empty_same_length.
      - intros s rest. apply lit_seq_nonempty. discriminate.
      - unfold remove_iffalse in *. lia. }
    assert (E2 : remove_iffalse u = u) by now apply sub_search_none.
    rewrite E2 in *.
    assert (E3 : collapse_newlines u = u).
    { apply (@sub_run_same_length (CChr nl) 1 [nl] one_pos (le_n 1)
               newline_run_is_one).
      fold re_newlines. fold (collapse_newlines u). lia. }
    repeat split; try assumption.
    rewrite <- E3. apply collapse_newlines_single.
  - intros (S1 & S2 & S3).
    rewrite (sub_search_none re_comment_block [] u S1
             : remove_comment_blocks u = u).
    rewrite (sub_search_none re_iffalse [] u S2 : remove_iffalse u = u).
    rewrite (collapse_newlines_fixed u S3).
    unfold remove_linebreaks, re_linebreak.
    rewrite sub_lit_no_occurrence; [assumption | discriminate | assumption].
Qed.

Lemma strip_twice_iff (t : text) :
  strip (strip t) = strip t
  <-> search re_comment_block (strip t) = None
      /\ search re_iffalse (strip t) = None
      /\ single_nl (strip t) = true.
Proof.
  apply strip_fixed_iff.
  - apply strip_comment_free.
  - apply strip_no_linebreak.
  - apply strip_spaces_fixed.
Qed.

(** Without double backslash and without the two opening words, the
    transform only takes out line comments and collapses newlines and
    spaces. *)
Lemma strip_without_blocks (t : text) :
  occurs (T "\\") t = false ->
  occurs (T "\begin{comment}") t = false ->
  occurs (T "\iffalse") t = false ->
  strip t = collapse_spaces (collapse_newlines (remove_line_comments t))
  /\ occurs (T "\begin{comment}") (strip t) = false
  /\ occurs (T "\iffalse") (strip t) = false.
Proof.
  intros Hb Hc Hi.
  assert (B1 : occurs (T "\\") (remove_line_comments t) = false).
  { apply occurs_sub_char;
      [discriminate | vm_compute; intuition discriminate | assumption]. }
  assert (C1 : occurs (T "\begin{comment}") (remove_line_comments t) = false).
  { apply occurs_sub_char;
      [discriminate | vm_compute; intuition discriminate | assumption]. }
  assert (I1 : occurs (T "\iffalse") (remove_line_comments t) = false).
  { apply occurs_sub_char;
      [discriminate | vm_compute; intuition discriminate | assumption]. }
  assert (E : strip t
              = collapse_spaces (collapse_newlines (remove_line_comments t))).
  { assert (A1 : remove_comment_blocks (remove_line_comments t)
                 = remove_line_comments t)
      by (apply sub_no_occurrence; [discriminate | assumption]).
    assert (A2 : remove_iffalse (remove_line_comments t)
                 = remove_line_comments t)
      by (apply sub_no_occurrence; [discriminate | assumption]).
    unfold strip. rewrite A1, A2.
    unfold remove_linebreaks, re_linebreak.
    rewrite sub_lit_no_occurrence; [reflexivity | discriminate |].
    apply occurs_sub_char;
      [discriminate | vm_compute; intuition discriminate | assumption]. }
  split; [assumption|]. rewrite E. split.
  - apply occurs_sub_char;
      [discriminate | vm_compute; intuition discriminate |].
    apply occurs_sub_char;
      [discriminate | vm_compute; intuition discriminate | assumption].
  - apply occurs_sub_char;
      [discriminate | vm_compute; intuition discriminate |].
    apply occurs_sub_char;
      [discriminate | vm_compute; intuition discriminate | assumption].
Qed.

Lemma search_no_word (l : text) (r : regex) (s : text) :
  occurs l s = false -> search (RSeq (RLit l) r) s = None.
Proof.
  induction s as [|c s IH]; intros H.
  - cbn [search]. rewrite match_at_lit_fail; [reflexivity|].
    rewrite occurs_unfold in H. now apply orb_false_iff in H.
  - apply occurs_false_head in H as [H1 H2].
    rewrite search_nomatch by now apply match_at_lit_fail.
    now apply IH.
Qed.

Lemma strip_twice_without_blocks (t : text) :
  occurs (T "\\") t = false ->
  occurs (T "\begin{comment}") t = false ->
  occurs (T "\iffalse") t = false ->
  strip (strip t) = strip t.
Proof.
  intros Hb Hc Hi.
  destruct (strip_without_blocks t Hb Hc Hi) as (E & C & I).
  apply strip_twice_iff. repeat split.
  - now apply search_no_word.
  - now apply search_no_word.
  - rewrite E. apply collapse_spaces_single, collapse_newlines_single.
Qed.

End Twice.

(** C7, as the code has it.  For every text, the transform applied
    twice gives the same as applied once exactly when the stripped
    text has no comment block, no [\iffalse] block and no two newlines
    in a row left in it.  This holds for every text without double
    backslash in which [\begin{comment}] and [\iffalse] do not
    occur.  The entry of a file in the dictionary is the transform of
    the decoded bytes of that file alone, so two archives that agree
    on the bytes of a file agree on its entry. *)
Theorem C7_strip_twice_iff_nothing_left (t : text) :
  (strip (strip t) = strip t
   <-> search re_comment_block (strip t) = None
       /\ search re_iffalse (strip t) = None
       /\ single_nl (strip t) = true)
  /\ (occurs (T "\\") t = false ->
      occurs (T "\begin{comment}") t = false ->
      occurs (T "\iffalse") t = false ->
      strip (strip t) = strip t)
  /\ (forall tar1 tar2 d1 d2 name,
        tex (Some tar1) = Some d1 -> tex (Some tar2) = Some d2 ->
        In name (tex_files_of tar1) -> In name (tex_files_of tar2) ->
        read tar1 name = read tar2 name ->
        dict_get d1 name = dict_get d2 name).
Proof.
  split; [apply strip_twice_iff|]. split; [apply strip_twice_without_blocks|].
  intros tar1 tar2 d1 d2 name H1 H2 I1 I2 E.
  rewrite (tex_entry _ _ H1 I1), (tex_entry _ _ H2 I2). now rewrite E.
Qed.

Lemma C7_strip_twice_iff_nothing_left_witness :
  strip (strip (T "\section{A} %b" ++ nl :: nl :: T "c     d \fi %e"))
  = strip (T "\section{A} %b" ++ nl :: nl :: T "c     d \fi %e").
Proof.
  apply (proj1 (proj2 (C7_strip_twice_iff_nothing_left
                         (T "\section{A} %b" ++ nl :: nl :: T "c     d \fi %e"))));
    vm_compute; reflexivity.
Defined.

(** C7 as stated fails: a newline, two backslashes and a newline
    become two newlines, and these become one newline the second
    time.  The double backslash is not the only cause: taking out an
    [\iffalse] block or a comment block can put together a new
    block, which goes the second time. *)
Lemma C7_counterexample :
  strip (nl :: T "\\" ++ [nl]) = [nl; nl]
  /\ strip (strip (nl :: T "\\" ++ [nl])) = [nl]
  /\ strip (strip (nl :: T "\\" ++ [nl])) <> strip (nl :: T "\\" ++ [nl])
  /\ occurs (T "\\") (T "\iffa\iffalse x\filse y\fi") = false
  /\ strip (T "\iffa\iffalse x\filse y\fi") = T "\iffalse y\fi"
  /\ strip (strip (T "\iffa\iffalse x\filse y\fi")) = []
  /\ strip (T "\begin{com\begin{comment}x\end{comment}ment}y\end{comment}")
     = T "\begin{comment}y\end{comment}"
  /\ strip (strip
              (T "\begin{com\begin{comment}x\end{comment}ment}y\end{comment}"))
     = [].
Proof.
  repeat split; try (vm_compute; reflexivity). vm_compute. discriminate.
Qed.

End Idempotence.

(* ================================================================== *)
(** * The identifier without its version *)
(* ================================================================== *)

Section Version.

Variable digits : list char.
Hypothesis v_no_digit : ~ In letter_v digits.

Lemma in_class_v : in_class (CSet digits) letter_v = false.
Proof.
  cbn [in_class]. destruct (existsb (N.eqb letter_v) digits) eqn:E;
    [|reflexivity].
  apply existsb_exists in E as (c & Hc & E). apply N.eqb_eq in E.
  subst c. contradiction.
Qed.

Lemma run_end (s : text) :
  run REnd s (@Some text) = if at_end s then Some s else None.
Proof. reflexivity. Qed.

(** Digits up to the end of the text. *)
Lemma digits_to_end (ds : text) :
  forall n, all_in (CSet digits) ds = true -> n <= length ds ->
            rep true (CSet digits) n None ds
                (fun s' => run REnd s' (@Some text)) = Some [].
Proof.
  induction ds as [|c ds IH]; intros n Hd Hn.
  - cbn [length] in Hn. assert (n = 0) by lia. subst n. reflexivity.
  - cbn [all_in forallb] in Hd. apply andb_true_iff in Hd as [Hc Hd].
    cbn [rep option_map]. rewrite Hc.
    destruct n as [|n]; cbn [pred].
    + rewrite IH; [reflexivity | assumption | lia].
    + apply IH; [assumption | cbn [length] in Hn; lia].
Qed.

(** Before a [v] that has digits after it the text does not end. *)
Lemma no_end_before_v (y ds : text) :
  ds <> [] ->
  forall n, rep true (CSet digits) n None (y ++ letter_v :: ds)
                (fun s' => run REnd s' (@Some text)) = None.
Proof.
  intros Hds. induction y as [|c y IH]; intros n.
  - cbn [app rep]. rewrite in_class_v.
    destruct n as [|n]; [|reflexivity].
    rewrite run_end. cbn [at_end]. destruct ds; [congruence | reflexivity].
  - change ((c :: y) ++ letter_v :: ds) with (c :: (y ++ letter_v :: ds)).
    cbn [rep option_map]. rewrite IH.
    destruct n as [|n]; [|now destruct (in_class _ c)].
    assert (E : (if in_class (CSet digits) c then None else None)
                = @None text) by now destruct (in_class _ c).
    rewrite E. rewrite run_end. cbn [at_end].
    destruct (y ++ letter_v :: ds) eqn:F; [|reflexivity].
    apply app_eq_nil in F as [_ F]. discriminate.
Qed.

Lemma version_no_match (c : char) (y ds : text) :
  ds <> [] ->
  match_at (re_version digits) ((c :: y) ++ letter_v :: ds) = None.
Proof.
  intros Hds. destruct (N.eqb_spec c letter_v) as [->|Hc].
  - unfold match_at, re_version.
    change ((letter_v :: y) ++ letter_v :: ds)
      with (T "v" ++ (y ++ letter_v :: ds)).
    rewrite run_lit_seq. cbn [run]. now apply no_end_before_v.
  - apply match_at_lit_fail. apply (@starts_with_head [] _ letter_v c).
    congruence.
Qed.

Lemma version_match (ds : text) :
  ds <> [] -> all_in (CSet digits) ds = true ->
  match_at (re_version digits) ((letter_v :: ds) ++ []) = Some [].
Proof.
  intros Hds Hd. unfold match_at, re_version. rewrite app_nil_r.
  change (letter_v :: ds) with (T "v" ++ ds).
  rewrite run_lit_seq. cbn [run]. apply digits_to_end; [assumption|].
  destruct ds; [congruence | cbn [length]; lia].
Qed.

(** X1.  When the short identifier ends with [v] and one or more
    decimal digits, [arxiv_id] is the identifier without that ending,
    whatever stands before it. *)
Theorem X1_arxiv_id_drops_version (base ds : text) :
  ds <> [] -> all_in (CSet digits) ds = true ->
  arxiv_id digits (base ++ T "v" ++ ds) = base.
Proof.
  intros Hds Hd. unfold arxiv_id.
  change (T "v" ++ ds) with (letter_v :: ds).
  induction base as [|c base IH].
  - cbn [app]. rewrite <- (app_nil_r (letter_v :: ds)).
    rewrite sub_match; [|discriminate | now apply version_match].
    cbn [app]. apply sub_nil. apply match_at_lit_fail. reflexivity.
  - change ((c :: base) ++ letter_v :: ds)
      with (c :: (base ++ letter_v :: ds)).
    rewrite sub_nomatch; [now rewrite IH|].
    now apply (version_no_match c base).
Qed.

(** X2.  An identifier without the letter [v] is left as it is. *)
Theorem X2_arxiv_id_without_v (short_id : text) :
  ~ In letter_v short_id -> arxiv_id digits short_id = short_id.
Proof.
  intros H. unfold arxiv_id, re_version.
  apply sub_clean; [discriminate|].
  now apply (clean_no_head letter_v []).
Qed.

End Version.

Lemma v_not_ascii_digit : ~ In letter_v ascii_digits.
Proof. vm_compute. intuition discriminate. Qed.

Lemma X1_arxiv_id_drops_version_witness :
  arxiv_id ascii_digits (T "2301.00001" ++ T "v" ++ T "12") = T "2301.00001".
Proof.
  apply (@X1_arxiv_id_drops_version ascii_digits v_not_ascii_digit
           (T "2301.00001") (T "12")).
  - discriminate.
  - reflexivity.
Defined.

Lemma X2_arxiv_id_without_v_witness :
  arxiv_id ascii_digits (T "2301.00001") = T "2301.00001".
Proof.
  apply (@X2_arxiv_id_without_v ascii_digits (T "2301.00001")).
  vm_compute. intuition discriminate.
Defined.

(* ================================================================== *)
(** * What [tex] returns *)
(* ================================================================== *)

Section Resolution.

(** X3.  For a tar file, [tex] returns [None] exactly when no member
    has a name that ends with [.tex]. *)
Theorem X3_tex_none_iff_no_tex_member (tar : archive) :
  tex (Some tar) = None <-> tex_files_of tar = [].
Proof.
  split.
  - intros H. destruct (tex_files_of tar) as [|t l] eqn:E; [reflexivity|].
    assert (Hf : tex_files_of tar <> []) by (rewrite E; discriminate).
    rewrite (tex_unfold tar Hf) in H. discriminate.
  - apply tex_no_files.
Qed.

(** The loop that reads the files, started without a main file, ends
    with the first file whose content has a document block. *)
Lemma scan_is_find (tar : archive) (l : list text) :
  forall d : dict,
    fst (fold_left (read_one tar) l (None, d))
    = find (fun t => has_document_block (content_of tar t)) l.
Proof.
  induction l as [|t l IH]; intros d; [reflexivity|].
  cbn [fold_left find]. unfold read_one at 2. cbn [fst snd].
  fold (content_of tar t).
  destruct (has_document_block (content_of tar t)).
  - apply read_all_fst_Some.
  - apply IH.
Qed.

(** With exactly one [.tex] member and no [.bbl] member, that
    member is the main file and the entry [all] is its content with
    the included files put in. *)
Lemma single_tex_main (tar : archive) (t : text) :
  tex_files_of tar = [t] -> bbl_file_of tar = [] ->
  main_tex_of tar = Some t
  /\ exists d, tex (Some tar) = Some d
               /\ get d (T "all") = Some (flatten d (content_of tar t)).
Proof.
  intros Ht Hb.
  assert (Hm : main_tex_of tar = Some t).
  { unfold main_tex_of. rewrite Ht, Hb. cbn [main_tex_of_names length].
    cbn [Nat.ltb Nat.leb hd_error]. apply read_all_fst_Some. }
  split; [assumption|].
  assert (Hf : tex_files_of tar <> []) by (rewrite Ht; discriminate).
  pose proof (tex_unfold tar Hf) as E. cbn zeta in E.
  remember (dict_set _ (T "all") _) as d eqn:Ed in E.
  exists d. split; [exact E|]. now apply tex_all_flatten.
Qed.

(** X5.  When the names do not settle the main file (two or more
    [.bbl] members; no [.bbl] member and two or more [.tex] members;
    one [.bbl] member whose candidate is no [.tex] member), the main
    file is the first [.tex] member, in the order of the archive,
    whose stripped content has [\begin{document}], and there is none
    when no member has it. *)
Theorem X5_content_scan_takes_first (tar : archive) :
  2 <= length (bbl_file_of tar)
  \/ (bbl_file_of tar = [] /\ 2 <= length (tex_files_of tar))
  \/ (exists b, bbl_file_of tar = [b] /\ ~ In (candidate b) (tex_files_of tar)) ->
  main_tex_of tar
  = find (fun t => has_document_block (content_of tar t)) (tex_files_of tar).
Proof.
  intros H. unfold main_tex_of.
  assert (E : main_tex_of_names (tex_files_of tar) (bbl_file_of tar) = None).
  { unfold main_tex_of_names. destruct H as [H|[[Hb H]|(b & Hb & H)]].
    - destruct (bbl_file_of tar) as [|b [|b' l]]; cbn [length] in H;
        [lia | lia | reflexivity].
    - rewrite Hb. apply Nat.ltb_lt in H. now rewrite H.
    - rewrite Hb. destruct (mem (candidate b) (tex_files_of tar)) eqn:M;
        [|reflexivity].
      apply mem_In in M. contradiction. }
  rewrite E. apply scan_is_find.
Qed.

Lemma X5_content_scan_takes_first_witness :
  main_tex_of scan_archive
  = find (fun t => has_document_block (content_of scan_archive t))
         (tex_files_of scan_archive).
Proof.
  apply (@X5_content_scan_takes_first scan_archive).
  left. vm_compute. lia.
Defined.

End Resolution.

(* ================================================================== *)
(** * The entries of the dictionary *)
(* ================================================================== *)

Section Entries.

Lemma text_eqb_sym (a b : text) : text_eqb a b = text_eqb b a.
Proof.
  destruct (text_eqb a b) eqn:E.
  - apply text_eqb_eq in E. subst. symmetry. apply text_eqb_refl.
  - apply text_eqb_neq in E. symmetry. apply text_eqb_neq. congruence.
Qed.

Lemma keys_dict_set_order (d : dict) (k : text) (v : option text) :
  keys (dict_set d k v) = if mem k (keys d) then keys d else keys d ++ [k].
Proof.
  induction d as [|[k0 v0] d IH]; [reflexivity|].
  cbn [dict_set]. unfold mem in *. cbn [keys map fst existsb].
  rewrite (text_eqb_sym k k0).
  destruct (text_eqb k0 k); cbn [orb keys map fst]; [reflexivity|].
  fold (keys d). fold (keys (dict_set d k v)). rewrite IH.
  now destruct (existsb (text_eqb k) (keys d)).
Qed.

Lemma read_all_keys_order (tar : archive) (l : list text) :
  forall st : option text * dict,
    keys (snd (fold_left (read_one tar) l st))
    = keys (snd st) ++ first_occurrences (keys (snd st)) l.
Proof.
  induction l as [|t l IH]; intros st.
  - cbn [fold_left first_occurrences]. now rewrite app_nil_r.
  - cbn [fold_left first_occurrences]. rewrite IH.
    unfold read_one. cbn [snd]. rewrite keys_dict_set_order.
    destruct (mem t (keys (snd st))); [reflexivity|].
    now rewrite <- app_assoc.
Qed.

Lemma dict_get_In_keys (d : dict) (k : text) (v : option text) :
  dict_get d k = Some v -> In k (keys d).
Proof.
  induction d as [|[k0 v0] d IH]; cbn [dict_get]; [discriminate|].
  destruct (text_eqb k0 k) eqn:E; intros H.
  - apply text_eqb_eq in E. now left.
  - right. now apply IH.
Qed.

(** X6.  The keys of the dictionary are the names of the [.tex]
    members, each once, in the order in which they first come in the
    archive, and then [all]. *)
Theorem X6_keys_in_archive_order (tar : archive) (d : dict) :
  tex (Some tar) = Some d ->
  keys d = first_occurrences [] (tex_files_of tar) ++ [T "all"].
Proof.
  intros H.
  destruct (tex_files_of tar) as [|t0 l0] eqn:E.
  { rewrite (tex_no_files _ E) in H. discriminate. }
  assert (Hf : tex_files_of tar <> []) by (rewrite E; discriminate).
  rewrite (tex_unfold tar Hf) in H. injection H as <-.
  rewrite <- E. rewrite keys_dict_set_order.
  destruct (mem (T "all") _) eqn:M.
  - apply mem_In in M. unfold read_all in M.
    apply read_all_keys in M as [M|[]].
    apply tex_files_end in M. discriminate.
  - unfold read_all. now rewrite read_all_keys_order.
Qed.

Lemma X6_keys_in_archive_order_witness :
  keys (tex_of scan_archive)
  = first_occurrences [] (tex_files_of scan_archive) ++ [T "all"].
Proof.
  apply (@X6_keys_in_archive_order scan_archive). vm_compute. reflexivity.
Defined.

(** X7.  The only entry that can be [None] is [all], and it is [None]
    only when no main file was found: every other value is a
    string. *)
Theorem X7_only_all_can_be_none (tar : archive) (d : dict) (k : text) :
  tex (Some tar) = Some d ->
  dict_get d k = Some None ->
  k = T "all" /\ main_tex_of tar = None.
Proof.
  intros H Hk.
  destruct (tex_files_of tar) as [|t0 l0] eqn:E.
  { rewrite (tex_no_files _ E) in H. discriminate. }
  assert (Hf : tex_files_of tar <> []) by (rewrite E; discriminate).
  rewrite (tex_unfold tar Hf) in H. injection H as <-.
  destruct (text_eqb (T "all") k) eqn:Ek.
  - apply text_eqb_eq in Ek. subst k. split; [reflexivity|].
    rewrite dict_get_set_same in Hk.
    destruct (main_tex_of tar); [discriminate | reflexivity].
  - apply text_eqb_neq in Ek. exfalso.
    rewrite dict_get_set_other in Hk by assumption.
    pose proof (dict_get_In_keys _ _ Hk) as Hin.
    unfold read_all in Hin, Hk. apply read_all_keys in Hin as [Hin|[]].
    rewrite read_all_get in Hk by now left. discriminate.
Qed.

Lemma X7_only_all_can_be_none_witness :
  T "all" = T "all" /\ main_tex_of two_fragments = None.
Proof.
  apply (@X7_only_all_can_be_none two_fragments (tex_of two_fragments));
    vm_compute; reflexivity.
Defined.

(** X8.  A marker for a file that is not in the archive is replaced
    by the empty string: when the main file is [pre], [\input{n}] and
    [post], with [\input{] starting nowhere in [pre] and [post], and
    the file of [n] is no key, the entry [all] is [pre] followed by
    [post]. *)
Theorem X8_missing_target_gives_empty
        (tar : archive) (d : dict) (m pre n post : text) :
  tex (Some tar) = Some d ->
  main_tex_of tar = Some m ->
  content_of tar m = pre ++ input_marker n ++ post ->
  clean (T "\input{") pre = true ->
  clean (T "\input{") post = true ->
  good_name n = true ->
  dict_get d (file_name_of n) = None ->
  get d (T "all") = Some (pre ++ post).
Proof.
  intros Ht Hm Hc Hpre Hpost Hn Hk.
  assert (Hg : get_str d (file_name_of n) = [])
    by (unfold get_str; now rewrite Hk).
  rewrite (tex_all_flatten _ Ht Hm), Hc. f_equal.
  replace (pre ++ input_marker n ++ post)
    with (render [Text pre; Marker n; Text post])
    by (unfold render; cbn [map concat item_text]; now rewrite app_nil_r).
  rewrite flatten_render.
  - cbn [map concat expand]. rewrite Hg. cbn [app]. now rewrite app_nil_r.
  - cbn [forallb item_ok]. now rewrite Hpre, Hpost, Hn.
  - intros n' x [C|[C|[C|[]]]] _; try discriminate.
    injection C as <-. now rewrite Hg.
Qed.

Lemma X8_missing_target_gives_empty_witness :
  get (tex_of single_tex) (T "all") = Some (T "text " ++ T " more").
Proof.
  apply (@X8_missing_target_gives_empty single_tex (tex_of single_tex)
           (T "paper.tex") (T "text ") (T "gone") (T " more"));
    vm_compute; reflexivity.
Defined.

(** X9.  A main file in which [\input{] starts nowhere is left as it
    is: the entry [all] is its stripped content, whatever [\include]
    directives it has. *)
Theorem X9_no_input_no_change (tar : archive) (d : dict) (m : text) :
  tex (Some tar) = Some d ->
  main_tex_of tar = Some m ->
  clean (T "\input{") (content_of tar m) = true ->
  get d (T "all") = Some (content_of tar m).
Proof.
  intros Ht Hm Hc.
  rewrite (tex_all_flatten _ Ht Hm). f_equal.
  replace (content_of tar m) with (render [Text (content_of tar m)]) at 1
    by (unfold render; cbn [map concat item_text]; now rewrite app_nil_r).
  rewrite flatten_render.
  - cbn [map concat expand]. now rewrite app_nil_r.
  - cbn [forallb item_ok]. now rewrite Hc.
  - intros n x [C|[]]. discriminate.
Qed.

Lemma X9_no_input_no_change_witness :
  get (tex_of with_include) (T "all")
  = Some (content_of with_include (T "main.tex")).
Proof.
  apply (@X9_no_input_no_change with_include (tex_of with_include)
           (T "main.tex")); vm_compute; reflexivity.
Defined.

End Entries.

(* ================================================================== *)
(** * Patterns [open.*?close] *)
(* ================================================================== *)

Section Blocks.

Variables open close : text.

(** The lazy [.*?] stops at the first place where [close] starts. *)
Lemma body_then_close (body rest : text) :
  clean close body = true ->
  rep false (CDot true) 0 None (body ++ close ++ rest)
      (fun s' => run (RLit close) s' (@Some text)) = Some rest.
Proof.
  induction body as [|c body IH]; intros H; rewrite rep_lazy_unfold.
  - cbn [app run]. now rewrite starts_with_app, skipn_length_app.
  - cbn [clean] in H. apply andb_true_iff in H as [Hd H].
    cbn [run]. rewrite (diverge_starts_with _ _ (close ++ rest) Hd).
    change ((c :: body) ++ close ++ rest) with (c :: (body ++ close ++ rest)).
    cbn [in_class orb]. now apply IH.
Qed.

Lemma block_match (body rest : text) :
  clean close body = true ->
  match_at (block open close) ((open ++ body ++ close) ++ rest) = Some rest.
Proof.
  intros H. unfold match_at, block. rewrite <- !app_assoc.
  rewrite run_lit_seq. cbn [run]. now apply body_then_close.
Qed.

Lemma sub_block (repl pre body post : text) :
  open <> [] -> clean open pre = true -> clean close body = true ->
  sub (block open close) repl (pre ++ open ++ body ++ close ++ post)
  = pre ++ repl ++ sub (block open close) repl post.
Proof.
  intros Ho Hp Hb. unfold block at 1.
  rewrite sub_clean_prefix by assumption. fold (block open close). f_equal.
  replace (open ++ body ++ close ++ post)
    with ((open ++ body ++ close) ++ post) by now rewrite <- !app_assoc.
  apply sub_match; [|now apply block_match].
  destruct open; [congruence | discriminate].
Qed.

Lemma search_block (pre body rest : text) :
  clean open pre = true -> clean close body = true ->
  search (block open close) (pre ++ open ++ body ++ close ++ rest)
  = Some (open ++ body ++ close).
Proof.
  intros Hp Hb. unfold block at 1.
  rewrite search_clean_prefix by assumption. fold (block open close).
  replace (open ++ body ++ close ++ rest)
    with ((open ++ body ++ close) ++ rest) by now rewrite <- !app_assoc.
  apply search_match. now apply block_match.
Qed.

(** A match needs [close] somewhere in the text. *)
Lemma block_match_occurs (s rest : text) :
  match_at (block open close) s = Some rest -> occurs close s = true.
Proof.
  unfold match_at, block. cbn [run]. intros H.
  destruct (starts_with open s) eqn:E; [|discriminate].
  apply starts_with_true in E as [s1 ->].
  rewrite skipn_length_app in H.
  apply rep_suffix in H as (p & s2 & -> & H).
  cbn [run] in H. destruct (starts_with close s2) eqn:F; [|discriminate].
  apply occurs_app_r, occurs_app_r.
  rewrite occurs_unfold, F. reflexivity.
Qed.

Lemma occurs_tail (p : text) (c : char) (s : text) :
  occurs p (c :: s) = false -> occurs p s = false.
Proof. cbn [occurs]. intros H. now apply orb_false_iff in H. Qed.

Lemma block_no_match (s : text) :
  occurs close s = false -> match_at (block open close) s = None.
Proof.
  intros H. destruct (match_at (block open close) s) eqn:E; [|reflexivity].
  apply block_match_occurs in E. congruence.
Qed.

Lemma sub_block_no_close (repl s : text) :
  occurs close s = false -> sub (block open close) repl s = s.
Proof.
  induction s as [|c s IH]; intros H.
  - apply sub_nil. now apply block_no_match.
  - rewrite sub_nomatch by now apply block_no_match.
    f_equal. apply IH. now apply occurs_tail in H.
Qed.

Lemma search_block_no_close (s : text) :
  occurs close s = false -> search (block open close) s = None.
Proof.
  induction s as [|c s IH]; intros H.
  - cbn [search]. now rewrite block_no_match.
  - rewrite search_nomatch by now apply block_no_match.
    apply IH. now apply occurs_tail in H.
Qed.

Lemma search_no_open (s : text) :
  occurs open s = false -> search (block open close) s = None.
Proof.
  unfold block.
  induction s as [|c s IH]; intros H.
  - cbn [search]. rewrite match_at_lit_fail; [reflexivity|].
    rewrite occurs_unfold in H. now apply orb_false_iff in H.
  - rewrite search_nomatch.
    + apply IH. now apply occurs_tail in H.
    + apply match_at_lit_fail.
      rewrite occurs_unfold in H. now apply orb_false_iff in H.
Qed.

End Blocks.

Section BlockRemoval.

(** X10.  A [\begin{comment}] block is removed up to the first
    [\end{comment}] after it: what stands before the block is kept,
    and the removal goes on in what stands after it. *)
Theorem X10_comment_block_removed (pre body post : text) :
  clean (T "\begin{comment}") pre = true ->
  clean (T "\end{comment}") body = true ->
  remove_comment_blocks
    (pre ++ T "\begin{comment}" ++ body ++ T "\end{comment}" ++ post)
  = pre ++ remove_comment_blocks post.
Proof.
  intros Hp Hb.
  apply (@sub_block (T "\begin{comment}") (T "\end{comment}") [] pre body post);
    [discriminate | assumption | assumption].
Qed.

Lemma X10_comment_block_removed_witness :
  remove_comment_blocks
    (T "a " ++ T "\begin{comment}" ++ T " x \begin{comment} y "
       ++ T "\end{comment}" ++ T " b \end{comment} c")
  = T "a " ++ remove_comment_blocks (T " b \end{comment} c").
Proof.
  apply (@X10_comment_block_removed
           (T "a ") (T " x \begin{comment} y ") (T " b \end{comment} c"));
    vm_compute; reflexivity.
Defined.

(** X11.  An [\iffalse] block is removed up to the first [\fi] after
    it, also when that [\fi] is the beginning of a longer command. *)
Theorem X11_iffalse_block_removed (pre body post : text) :
  clean (T "\iffalse") pre = true ->
  clean (T "\fi") body = true ->
  remove_iffalse (pre ++ T "\iffalse" ++ body ++ T "\fi" ++ post)
  = pre ++ remove_iffalse post.
Proof.
  intros Hp Hb.
  apply (@sub_block (T "\iffalse") (T "\fi") [] pre body post);
    [discriminate | assumption | assumption].
Qed.

Lemma X11_iffalse_block_removed_witness :
  remove_iffalse (T "a " ++ T "\iffalse" ++ T " x " ++ T "\fi" ++ T "gure b")
  = T "a " ++ remove_iffalse (T "gure b").
Proof.
  apply (@X11_iffalse_block_removed (T "a ") (T " x ") (T "gure b"));
    vm_compute; reflexivity.
Defined.

(** X12.  Without a closing tag nothing is removed: a text in which
    [\end{comment}] does not occur is left as it is by the removal of
    comment blocks, and a text in which [\fi] does not occur by the
    removal of [\iffalse] blocks. *)
Theorem X12_no_closing_tag_no_removal (s : text) :
  (occurs (T "\end{comment}") s = false -> remove_comment_blocks s = s)
  /\ (occurs (T "\fi") s = false -> remove_iffalse s = s).
Proof.
  split; intros H.
  - now apply (@sub_block_no_close (T "\begin{comment}") (T "\end{comment}")).
  - now apply (@sub_block_no_close (T "\iffalse") (T "\fi")).
Qed.

Lemma X12_no_closing_tag_no_removal_witness :
  remove_comment_blocks (T "a \begin{comment} b \fi")
  = T "a \begin{comment} b \fi"
  /\ remove_iffalse (T "a \iffalse b \end{comment}")
     = T "a \iffalse b \end{comment}".
Proof.
  split.
  - apply (proj1 (X12_no_closing_tag_no_removal (T "a \begin{comment} b \fi"))).
    vm_compute. reflexivity.
  - apply (proj2 (X12_no_closing_tag_no_removal
                    (T "a \iffalse b \end{comment}"))).
    vm_compute. reflexivity.
Defined.

(** X13.  In [tldr] a [figure] environment and a [table] environment
    are removed from the opening tag to the first closing tag of the
    same kind. *)
Theorem X13_figure_and_table_removed (pre body post : text) :
  (clean (T "\begin{figure}") pre = true ->
   clean (T "\end{figure}") body = true ->
   sub re_figure [] (pre ++ T "\begin{figure}" ++ body ++ T "\end{figure}" ++ post)
   = pre ++ sub re_figure [] post)
  /\ (clean (T "\begin{table}") pre = true ->
      clean (T "\end{table}") body = true ->
      sub re_table [] (pre ++ T "\begin{table}" ++ body ++ T "\end{table}" ++ post)
      = pre ++ sub re_table [] post).
Proof.
  split; intros Hp Hb.
  - apply (@sub_block (T "\begin{figure}") (T "\end{figure}") [] pre body post);
      [discriminate | assumption | assumption].
  - apply (@sub_block (T "\begin{table}") (T "\end{table}") [] pre body post);
      [discriminate | assumption | assumption].
Qed.

Lemma X13_figure_and_table_removed_witness :
  sub re_figure []
      (T "a " ++ T "\begin{figure}" ++ T " x " ++ T "\end{figure}" ++ T " b")
  = T "a " ++ sub re_figure [] (T " b")
  /\ sub re_table []
         (T "a " ++ T "\begin{table}" ++ T " x " ++ T "\end{table}" ++ T " b")
     = T "a " ++ sub re_table [] (T " b").
Proof.
  split.
  - apply (proj1 (X13_figure_and_table_removed (T "a ") (T " x ") (T " b")));
      vm_compute; reflexivity.
  - apply (proj2 (X13_figure_and_table_removed (T "a ") (T " x ") (T " b")));
      vm_compute; reflexivity.
Defined.

End BlockRemoval.

(* ================================================================== *)
(** * No long run is left *)
(* ================================================================== *)

Section ShortRuns.

Variable K : cclass.
Variable lo : nat.
Variable repl : text.
Hypothesis lo_pos : 0 < lo.
Hypothesis repl_short : length repl < lo.

Lemma starts_run_out (c : char) (s : text) :
  in_class K c = false -> starts_run K lo (c :: s) = false.
Proof.
  intros H. unfold starts_run. destruct lo as [|n]; [lia|].
  cbn [firstn all_in forallb]. rewrite H. apply andb_false_r.
Qed.

Lemma starts_run_short (x y : text) :
  x <> [] -> length x < lo -> starts_out K y = true ->
  starts_run K lo (x ++ y) = false.
Proof.
  intros Hx Hl Hy. unfold starts_run.
  destruct y as [|e y].
  - rewrite app_nil_r. apply Nat.leb_gt in Hl. now rewrite Hl.
  - cbn [starts_out] in Hy. apply negb_true_iff in Hy.
    rewrite firstn_app. unfold all_in. rewrite forallb_app.
    destruct (lo - length x) as [|n] eqn:E; [lia|].
    cbn [firstn forallb]. rewrite Hy. cbn [andb]. now rewrite !andb_false_r.
Qed.

Lemma no_run_short_prefix (x y : text) :
  length x < lo -> starts_out K y = true -> no_run K lo y = true ->
  no_run K lo (x ++ y) = true.
Proof.
  induction x as [|c x IH]; intros Hl Hy Hn; [assumption|].
  change ((c :: x) ++ y) with (c :: (x ++ y)). cbn [no_run].
  change (c :: (x ++ y)) with ((c :: x) ++ y).
  rewrite starts_run_short; [|discriminate | assumption | assumption].
  cbn [negb andb]. apply IH; [cbn [length] in Hl; lia | assumption..].
Qed.

(** After a replacement of the runs of [lo] and more characters of
    [K] by a shorter text of [K], no run of [lo] characters of [K] is
    left. *)
Lemma sub_run_no_run (u : text) :
  no_run K lo (sub (RRep true lo None K) repl u) = true.
Proof.
  revert u.
  apply (run_induction K lo_pos
           (fun u => no_run K lo (sub (RRep true lo None K) repl u) = true));
    cbv beta.
  - now rewrite sub_run_nil by exact lo_pos.
  - intros c u Hc IH. rewrite sub_run_out by assumption.
    cbn [no_run]. rewrite starts_run_out by assumption. now rewrite IH.
  - intros w rest Hne Hw Hr IH.
    pose proof (sub_run_starts_out K repl lo_pos rest Hr) as Hr'.
    destruct (@sub_run_cases K lo repl lo_pos w rest Hne Hw Hr)
      as (x & -> & [[-> _]|[-> L]]);
      now apply no_run_short_prefix.
Qed.

End ShortRuns.

Section StripOutput.

(** X14.  In the stripped content of a file there are never three
    characters in a row out of space, tab, carriage return and form
    feed: the last substitution leaves none and nothing comes after
    it. *)
Theorem X14_strip_leaves_no_three_spaces (content : text) :
  no_run spaces 3 (strip content) = true.
Proof.
  unfold strip, collapse_spaces, re_spaces. fold spaces.
  apply (@sub_run_no_run spaces 3 (T " ") three_pos).
  cbn [length T map String.list_ascii_of_string]. lia.
Qed.

End StripOutput.

(* ================================================================== *)
(** * Sections that are missing, open-ended or adjacent *)
(* ================================================================== *)

Section OpenSections.

Lemma find_section_absent (heading content : text) :
  occurs heading content = false -> find_section heading content = [].
Proof.
  intros H. unfold find_section, re_section. now rewrite search_no_word.
Qed.

(** X15.  When a heading is not in the text, letter for letter, after
    citations, figures and tables have been taken out, its section is
    the empty text. *)
Theorem X15_absent_headings_give_empty (content : text) :
  occurs heading_introduction (remove_cite_figure_table content) = false ->
  occurs heading_conclusion (remove_cite_figure_table content) = false ->
  extract_sections content = ([], []).
Proof.
  intros Hi Hc. unfold extract_sections.
  now rewrite !find_section_absent.
Qed.

Lemma X15_absent_headings_give_empty_witness :
  extract_sections
    (T "\section*{Introduction}Hello\section{Conclusions}Bye") = ([], []).
Proof.
  apply X15_absent_headings_give_empty; vm_compute; reflexivity.
Defined.

Lemma ends_with_nl_cons (c : char) (body : text) :
  ends_with [nl] (c :: body) = false -> body <> [] ->
  ends_with [nl] body = false.
Proof.
  unfold ends_with. cbn [rev app]. intros H Hb.
  destruct (rev body) as [|x r] eqn:E.
  - apply (f_equal (@rev char)) in E. rewrite rev_involutive in E.
    cbn [rev] in E. contradiction.
  - exact H.
Qed.

(** Without an end word, the lazy [.*?] runs on to the place where
    [$] holds: the end of the text, or a newline that ends it. *)
Lemma body_to_end (body tail : text) :
  no_end_word body = true -> at_end tail = true ->
  (tail = [] -> ends_with [nl] body = false) ->
  rep false (CDot true) 0 None (body ++ tail)
      (fun s' => run re_end_word s' (@Some text)) = Some tail.
Proof.
  intros Hb Ht. induction body as [|c body IH]; intros Hn.
  - rewrite rep_lazy_unfold. cbn [app]. rewrite run_end_word.
    destruct tail as [|e [|e' tail]]; [reflexivity| |discriminate].
    cbn [at_end] in Ht. apply N.eqb_eq in Ht. subst e. reflexivity.
  - rewrite rep_lazy_unfold.
    pose proof (no_end_word_cons _ _ Hb) as [Hd Hb'].
    rewrite run_end_word.
    rewrite !diverge_starts_with by (apply Hd; simpl; tauto).
    assert (A : at_end ((c :: body) ++ tail) = false).
    { cbn [app at_end]. destruct (body ++ tail) as [|e u] eqn:E; [|reflexivity].
      apply app_eq_nil in E as [-> ->]. specialize (Hn eq_refl).
      unfold ends_with in Hn. cbn [rev app starts_with] in Hn.
      rewrite andb_true_r in Hn. now rewrite N.eqb_sym. }
    rewrite A.
    change ((c :: body) ++ tail) with (c :: (body ++ tail)).
    cbn [in_class orb]. apply IH; [assumption|].
    intros ->. destruct body as [|e body]; [reflexivity|].
    apply (ends_with_nl_cons c); [now apply Hn | discriminate].
Qed.

Lemma find_section_to_end (heading pre body tail : text) :
  clean heading pre = true -> no_end_word body = true ->
  at_end tail = true -> (tail = [] -> ends_with [nl] body = false) ->
  find_section heading (pre ++ heading ++ body ++ tail) = heading ++ body.
Proof.
  intros Hp Hb Ht Hn. unfold find_section, re_section.
  rewrite search_clean_prefix by assumption.
  replace (heading ++ body ++ tail) with ((heading ++ body) ++ tail)
    by now rewrite <- !app_assoc.
  rewrite search_match; [reflexivity|].
  unfold match_at. rewrite <- !app_assoc. rewrite run_lit_seq.
  cbn [run]. now apply body_to_end.
Qed.

(** X16.  An introduction that no end word follows runs to the end of
    the text; one newline at the very end of the text is left out of
    it.  Here the text, after citations, figures and tables have been
    taken out, is [pre], the heading, [body] and [tail], where [tail]
    is empty or that last newline. *)
Theorem X16_section_runs_to_end (content pre body tail : text) :
  remove_cite_figure_table content
  = pre ++ heading_introduction ++ body ++ tail ->
  clean heading_introduction pre = true ->
  no_end_word body = true ->
  at_end tail = true ->
  (tail = [] -> ends_with [nl] body = false) ->
  fst (extract_sections content) = heading_introduction ++ body.
Proof.
  intros E Hp Hb Ht Hn. unfold extract_sections. cbn [fst].
  rewrite E. now apply find_section_to_end.
Qed.

Lemma X16_section_runs_to_end_witness :
  fst (extract_sections
         (T "\maketitle \section{Introduction}Hello" ++ [nl; nl]))
  = heading_introduction ++ (T "Hello" ++ [nl]).
Proof.
  apply (@X16_section_runs_to_end _
           (T "\maketitle ") (T "Hello" ++ [nl]) [nl]).
  - vm_compute. reflexivity.
  - vm_compute. reflexivity.
  - vm_compute. reflexivity.
  - reflexivity.
  - discriminate.
Defined.

(** X17.  The two sections are searched for one after the other in
    the same text.  When the conclusion comes right after the
    introduction, the introduction ends with the [\section] of the
    conclusion's heading, and the conclusion is still found whole,
    with the end word that follows it. *)
Theorem X17_adjacent_sections_overlap
        (content pre intro concl tok rest : text) :
  remove_cite_figure_table content
  = pre ++ heading_introduction ++ intro
        ++ heading_conclusion ++ concl ++ tok ++ rest ->
  clean heading_introduction pre = true ->
  no_end_word intro = true ->
  clean heading_conclusion (pre ++ heading_introduction ++ intro) = true ->
  no_end_word concl = true ->
  In tok end_words ->
  extract_sections content
  = (heading_introduction ++ intro ++ T "\section",
     heading_conclusion ++ concl ++ tok).
Proof.
  intros E Hp Hi Hc Hb Ht. unfold extract_sections. rewrite E. f_equal.
  - change heading_conclusion with (T "\section" ++ T "{Conclusion}").
    rewrite <- (app_assoc (T "\section")).
    apply find_section_span; [assumption | assumption | simpl; tauto].
  - replace (pre ++ heading_introduction ++ intro
               ++ heading_conclusion ++ concl ++ tok ++ rest)
      with ((pre ++ heading_introduction ++ intro)
              ++ heading_conclusion ++ concl ++ tok ++ rest)
      by now rewrite <- !app_assoc.
    now apply find_section_span.
Qed.

Lemma X17_adjacent_sections_overlap_witness :
  extract_sections
    (T "\section{Introduction}Hello\section{Conclusion}Bye\end{document}")
  = (heading_introduction ++ T "Hello" ++ T "\section",
     heading_conclusion ++ T "Bye" ++ T "\end{document}").
Proof.
  apply (@X17_adjacent_sections_overlap _
           [] (T "Hello") (T "Bye") (T "\end{document}") []).
  - vm_compute. reflexivity.
  - vm_compute. reflexivity.
  - vm_compute. reflexivity.
  - vm_compute. reflexivity.
  - vm_compute. reflexivity.
  - vm_compute. tauto.
Defined.

End OpenSections.

(* ================================================================== *)
(** * When the join raises, and the region of the authors *)
(* ================================================================== *)

Section Regions.





(** X20.  The region from the first [\author] to the first
    [\maketitle] after it is the one that is taken, whatever else the
    text holds; both words are part of the region. *)
Theorem X20_author_region_is_taken (pre body rest : text) :
  clean (T "\author") pre = true ->
  clean (T "\maketitle") body = true ->
  information_region
    (pre ++ T "\author" ++ body ++ T "\maketitle" ++ rest)
  = Some (T "\author" ++ body ++ T "\maketitle").
Proof.
  intros Hp Hb. unfold information_region, possible_regions.
  cbn [first_match]. now rewrite search_block.
Qed.

Lemma X20_author_region_is_taken_witness :
  information_region
    (T "\begin{document}\author{A. B.}\maketitle\begin{abstract}")
  = Some (T "\author" ++ T "{A. B.}" ++ T "\maketitle").
Proof.
  apply (@X20_author_region_is_taken
           (T "\begin{document}") (T "{A. B.}") (T "\begin{abstract}"));
    vm_compute; reflexivity.
Defined.

Lemma author_block_fails (content : text) :
  occurs (T "\author") content = false
  \/ occurs (T "\maketitle") content = false ->
  search (block (T "\author") (T "\maketitle")) content = None.
Proof.
  intros [H|H]; [now apply search_no_open | now apply search_block_no_close].
Qed.

(** X21.  When [\author] or [\maketitle] is missing from the text, the
    region is the one from the first [\begin{document}] to the first
    [\begin{abstract}] after it. *)
Theorem X21_document_region_is_fallback (pre body rest : text) :
  occurs (T "\author")
         (pre ++ T "\begin{document}" ++ body ++ T "\begin{abstract}" ++ rest)
  = false
  \/ occurs (T "\maketitle")
            (pre ++ T "\begin{document}" ++ body ++ T "\begin{abstract}" ++ rest)
     = false ->
  clean (T "\begin{document}") pre = true ->
  clean (T "\begin{abstract}") body = true ->
  information_region
    (pre ++ T "\begin{document}" ++ body ++ T "\begin{abstract}" ++ rest)
  = Some (T "\begin{document}" ++ body ++ T "\begin{abstract}").
Proof.
  intros Ha Hp Hb. unfold information_region, possible_regions.
  cbn [first_match]. rewrite author_block_fails by assumption.
  now rewrite search_block.
Qed.

Lemma X21_document_region_is_fallback_witness :
  information_region
    (T "\title{T}\begin{document}\author{A. B.}\begin{abstract}Text")
  = Some (T "\begin{document}" ++ T "\author{A. B.}" ++ T "\begin{abstract}").
Proof.
  apply (@X21_document_region_is_fallback
           (T "\title{T}") (T "\author{A. B.}") (T "Text")).
  - right. vm_compute. reflexivity.
  - vm_compute. reflexivity.
  - vm_compute. reflexivity.
Defined.

(** X22.  With a flattened main file in which neither pair of words is
    complete, the head of [affiliations] ends with [None] and nothing
    is handed to the language model. *)
Theorem X22_no_region_gives_none (d : dict) (content : text) :
  get d (T "all") = Some content ->
  occurs (T "\author") content = false
  \/ occurs (T "\maketitle") content = false ->
  occurs (T "\begin{document}") content = false
  \/ occurs (T "\begin{abstract}") content = false ->
  affiliations_region (Some d) = Ok None.
Proof.
  intros E Ha Hd. unfold affiliations_region, tldr_content. rewrite E.
  unfold information_region, possible_regions. cbn [first_match].
  rewrite author_block_fails by assumption.
  destruct Hd as [H|H];
    [rewrite search_no_open by assumption
    | rewrite search_block_no_close by assumption]; reflexivity.
Qed.

Lemma X22_no_region_gives_none_witness :
  affiliations_region (Some (tex_of single_tex)) = Ok None.
Proof.
  apply (@X22_no_region_gives_none (tex_of single_tex) (T "text  more")).
  - vm_compute. reflexivity.
  - left. vm_compute. reflexivity.
  - right. vm_compute. reflexivity.
Defined.

End Regions.

(* ================================================================== *)
(** * Citations, and texts without commands *)
(* ================================================================== *)

Section Citations.

(** An optional character in front of a pattern: first with it, then
    without it. *)
Lemma rep_opt_unfold (A : Type) (k : cclass) (s : text)
      (cont : text -> option A) :
  rep true k 0 (Some 1) s cont =
  match s with
  | c :: s' =>
      if in_class k c
      then match cont s' with Some x => Some x | None => cont s end
      else cont s
  | [] => cont []
  end.
Proof.
  destruct s as [|c s']; [reflexivity|].
  cbn [rep pred option_map].
  destruct (in_class k c); [|reflexivity].
  destruct s'; reflexivity.
Qed.

Lemma match_at_opt_chr (a : char) (r : regex) (s : text) :
  match_at (RSeq (RRep true 0 (Some 1) (CChr a)) r) s =
  match s with
  | c :: s' =>
      if N.eqb c a
      then match match_at r s' with Some x => Some x | None => match_at r s end
      else match_at r s
  | [] => match_at r []
  end.
Proof. unfold match_at. cbn [run]. now rewrite rep_opt_unfold. Qed.

Lemma ends_with_one_cons (a c : char) (s : text) :
  s <> [] -> ends_with [a] (c :: s) = ends_with [a] s.
Proof.
  intros Hs. unfold ends_with. cbn [rev app].
  destruct (rev s) as [|x r] eqn:E; [|reflexivity].
  apply (f_equal (@rev char)) in E. rewrite rev_involutive in E.
  cbn [rev] in E. contradiction.
Qed.

(** No citation starts inside a text that is clean for [\cite]; a
    tilde at its end may only belong to one that starts there. *)
Lemma cite_no_match (c : char) (pre rest : text) :
  clean (T "\cite") (c :: pre) = true ->
  (ends_with (T "~") (c :: pre) = true ->
   starts_with (T "\cite") rest = false) ->
  match_at re_cite ((c :: pre) ++ rest) = None.
Proof.
  intros H Ht. cbn [clean] in H. apply andb_true_iff in H as [Hd H].
  unfold re_cite. rewrite match_at_opt_chr.
  change ((c :: pre) ++ rest) with (c :: (pre ++ rest)). cbv beta iota.
  assert (F : match_at
                (RSeq (RLit (T "\cite"))
                   (RSeq (RRep true 0 (Some 1) (CDot false))
                      (RSeq (RLit (T "{"))
                         (RSeq (RRep false 0 None (CDot false))
                            (RLit (T "}"))))))
                (c :: pre ++ rest) = None).
  { apply match_at_lit_fail.
    exact (diverge_starts_with _ _ rest Hd). }
  rewrite F. destruct (N.eqb c 126) eqn:E; [|reflexivity].
  rewrite match_at_lit_fail; [reflexivity|].
  destruct pre as [|e pre].
  - apply Ht. apply N.eqb_eq in E. subst c. reflexivity.
  - cbn [clean] in H. apply andb_true_iff in H as [Hd' _].
    exact (diverge_starts_with _ _ rest Hd').
Qed.

Lemma cite_prefix_kept (pre rest : text) :
  clean (T "\cite") pre = true ->
  (ends_with (T "~") pre = true -> starts_with (T "\cite") rest = false) ->
  sub re_cite [] (pre ++ rest) = pre ++ sub re_cite [] rest.
Proof.
  induction pre as [|c pre IH]; intros H Ht; [reflexivity|].
  change ((c :: pre) ++ rest) with (c :: (pre ++ rest)).
  rewrite sub_nomatch by now apply (cite_no_match c pre rest).
  cbn [app]. f_equal. apply IH.
  - cbn [clean] in H. now apply andb_true_iff in H.
  - intros E. apply Ht. destruct pre as [|e pre]; [discriminate|].
    change (T "~") with [126%N] in *.
    rewrite ends_with_one_cons; [assumption | discriminate].
Qed.

(** The lazy repetition of a class stops at the first place where
    [close] starts. *)
Lemma lazy_then_close (k : cclass) (close body rest : text) :
  clean close body = true -> all_in k body = true ->
  rep false k 0 None (body ++ close ++ rest)
      (fun s' => run (RLit close) s' (@Some text)) = Some rest.
Proof.
  induction body as [|c body IH]; intros H Hk; rewrite rep_lazy_unfold.
  - cbn [app run]. now rewrite starts_with_app, skipn_length_app.
  - cbn [clean] in H. apply andb_true_iff in H as [Hd H].
    cbn [all_in forallb] in Hk. apply andb_true_iff in Hk as [Hc Hk].
    cbn [run]. rewrite (diverge_starts_with _ _ (close ++ rest) Hd).
    change ((c :: body) ++ close ++ rest) with (c :: (body ++ close ++ rest)).
    cbv beta iota. rewrite Hc. now apply IH.
Qed.

Lemma brace_match (key post : text) :
  all_in (CDot false) key = true -> clean (T "}") key = true ->
  match_at (RSeq (RLit (T "{"))
              (RSeq (RRep false 0 None (CDot false)) (RLit (T "}"))))
           (T "{" ++ key ++ T "}" ++ post) = Some post.
Proof.
  intros Hk Hc. unfold match_at. rewrite run_lit_seq. cbn [run].
  now apply lazy_then_close.
Qed.

Lemma cite_variant_match (v key post : text) :
  length v <= 1 ->
  all_in (CDot false) (v ++ key) = true -> clean (T "}") key = true ->
  match_at (RSeq (RRep true 0 (Some 1) (CDot false))
              (RSeq (RLit (T "{"))
                 (RSeq (RRep false 0 None (CDot false)) (RLit (T "}")))))
           (v ++ T "{" ++ key ++ T "}" ++ post) = Some post.
Proof.
  intros Hv Hk Hc. unfold match_at.
  match goal with
  | |- run (RSeq (RRep ?g ?lo ?hi ?k) ?R) ?s ?c = _ =>
      change (rep g k lo hi s (fun s' => run R s' c) = Some post)
  end.
  rewrite rep_opt_unfold.
  destruct v as [|c [|c' v]]; [| |cbn [length] in Hv; lia].
  - cbn [app] in Hk |- *.
    change (T "{" ++ key ++ T "}" ++ post)
      with (123%N :: (key ++ T "}" ++ post)).
    cbv beta iota.
    change (in_class (CDot false) 123%N) with true. cbv iota.
    change (123%N :: (key ++ T "}" ++ post))
      with (T "{" ++ key ++ T "}" ++ post).
    pose proof (brace_match key post Hk Hc) as B. unfold match_at in B.
    destruct key as [|e key'].
    + assert (N : run (RSeq (RLit (T "{"))
                         (RSeq (RRep false 0 None (CDot false))
                            (RLit (T "}"))))
                      ([] ++ T "}" ++ post) (@Some text) = None).
      { apply match_at_lit_fail. reflexivity. }
      rewrite N. exact B.
    + destruct (N.eqb e 123) eqn:E.
      * apply N.eqb_eq in E. subst e.
        cbn [all_in forallb] in Hk. apply andb_true_iff in Hk as [_ Hk].
        cbn [clean] in Hc. apply andb_true_iff in Hc as [_ Hc].
        pose proof (brace_match key' post Hk Hc) as B'. unfold match_at in B'.
        change ((123%N :: key') ++ T "}" ++ post)
          with (T "{" ++ key' ++ T "}" ++ post).
        now rewrite B'.
      * assert (N : run (RSeq (RLit (T "{"))
                           (RSeq (RRep false 0 None (CDot false))
                              (RLit (T "}"))))
                        ((e :: key') ++ T "}" ++ post) (@Some text) = None).
        { apply match_at_lit_fail.
          change (T "{") with [123%N]. cbn [app starts_with].
          rewrite N.eqb_sym, E. reflexivity. }
        rewrite N. exact B.
  - cbn [app all_in forallb] in Hk. apply andb_true_iff in Hk as [Hi Hk].
    change ([c] ++ T "{" ++ key ++ T "}" ++ post)
      with (c :: (T "{" ++ key ++ T "}" ++ post)).
    cbv beta iota. rewrite Hi.
    pose proof (brace_match key post Hk Hc) as B. unfold match_at in B.
    now rewrite B.
Qed.

Lemma cite_match (tilde : bool) (v key post : text) :
  length v <= 1 ->
  all_in (CDot false) (v ++ key) = true -> clean (T "}") key = true ->
  match_at re_cite
    (((if tilde then T "~" else [])
        ++ T "\cite" ++ v ++ T "{" ++ key ++ T "}") ++ post) = Some post.
Proof.
  intros Hv Hk Hc.
  assert (M : match_at
                (RSeq (RLit (T "\cite"))
                   (RSeq (RRep true 0 (Some 1) (CDot false))
                      (RSeq (RLit (T "{"))
                         (RSeq (RRep false 0 None (CDot false))
                            (RLit (T "}"))))))
                (T "\cite" ++ v ++ T "{" ++ key ++ T "}" ++ post)
              = Some post).
  { unfold match_at. rewrite run_lit_seq.
    now apply cite_variant_match. }
  unfold re_cite. rewrite match_at_opt_chr. rewrite <- !app_assoc.
  destruct tilde.
  - change (T "~" ++ T "\cite" ++ v ++ T "{" ++ key ++ T "}" ++ post)
      with (126%N :: (T "\cite" ++ v ++ T "{" ++ key ++ T "}" ++ post)).
    cbv beta iota. rewrite N.eqb_refl. now rewrite M.
  - cbn [app]. change (T "\cite" ++ v ++ T "{" ++ key ++ T "}" ++ post)
      with (92%N :: (T "cite" ++ v ++ T "{" ++ key ++ T "}" ++ post)) in M |- *.
    cbv beta iota. change (N.eqb 92 126) with false. cbv iota. exact M.
Qed.

(** X23.  A citation is removed whole: [\cite], at most one more
    character after it, and braces around a key that has no closing
    brace and no newline in it; a tilde right before it goes as
    well.  What stands before the citation is kept and the removal
    goes on after it. *)
Theorem X23_citation_removed (tilde : bool) (pre v key post : text) :
  clean (T "\cite") pre = true ->
  (tilde = false -> ends_with (T "~") pre = false) ->
  length v <= 1 ->
  all_in (CDot false) (v ++ key) = true ->
  clean (T "}") key = true ->
  sub re_cite []
      (pre ++ ((if tilde then T "~" else [])
                 ++ T "\cite" ++ v ++ T "{" ++ key ++ T "}") ++ post)
  = pre ++ sub re_cite [] post.
Proof.
  intros Hp Ht Hv Hk Hc. rewrite cite_prefix_kept; [|assumption|].
  - f_equal. rewrite sub_match; [reflexivity| |now apply cite_match].
    destruct tilde; discriminate.
  - intros E. destruct tilde; [reflexivity|].
    rewrite Ht in E by reflexivity. discriminate.
Qed.

Lemma X23_citation_removed_witness :
  sub re_cite []
      (T "as shown" ++ (T "~" ++ T "\cite" ++ T "p" ++ T "{" ++ T "a,b" ++ T "}")
         ++ T " and \citeauthor{c}.")
  = T "as shown" ++ sub re_cite [] (T " and \citeauthor{c}.").
Proof.
  apply (@X23_citation_removed true (T "as shown") (T "p") (T "a,b")
           (T " and \citeauthor{c}.")).
  - vm_compute. reflexivity.
  - discriminate.
  - vm_compute. lia.
  - vm_compute. reflexivity.
  - vm_compute. reflexivity.
Defined.

(** X24.  A text in which [\cite], [\begin{figure}] and
    [\begin{table}] start nowhere goes through the three removals of
    [tldr] unchanged. *)
Theorem X24_nothing_to_remove (content : text) :
  clean (T "\cite") content = true ->
  clean (T "\begin{figure}") content = true ->
  clean (T "\begin{table}") content = true ->
  remove_cite_figure_table content = content.
Proof.
  intros Hc Hf Ht. unfold remove_cite_figure_table.
  assert (E : sub re_cite [] content = content).
  { rewrite <- (app_nil_r content) at 1.
    rewrite cite_prefix_kept; [|assumption|reflexivity].
    rewrite (sub_nil re_cite []); [apply app_nil_r | reflexivity]. }
  rewrite E. unfold re_figure, re_table.
  rewrite (@sub_clean (T "\begin{figure}") _ [] content);
    [|discriminate | assumption].
  apply sub_clean; [discriminate | assumption].
Qed.

Lemma X24_nothing_to_remove_witness :
  remove_cite_figure_table (T "\section{Results}We~see \begin{equation}")
  = T "\section{Results}We~see \begin{equation}".
Proof.
  apply X24_nothing_to_remove; vm_compute; reflexivity.
Defined.

(** X25.  In the stripped content of a file without backslash no two
    newlines stand next to each other: blank lines are gone. *)
Theorem X25_strip_leaves_no_blank_line (content : text) :
  ~ In backslash content -> single_nl (strip content) = true.
Proof.
  intros H. rewrite strip_plain by assumption.
  apply collapse_spaces_single, collapse_newlines_single.
Qed.

Lemma X25_strip_leaves_no_blank_line_witness :
  single_nl (strip (T "a %b" ++ nl :: nl :: nl :: T "c")) = true.
Proof.
  apply X25_strip_leaves_no_blank_line. vm_compute. intuition discriminate.
Defined.

End Citations.

(* ================================================================== *)
(** * Members that cannot be read: what [tex] raises *)
(* ================================================================== *)

Section Unreadable.

Lemma find_members (t : text) (l : list Raising.tarinfo) :
  find (fun m => text_eqb (name m) t)
       (map (fun i => Member (Raising.info_name i)
                             (Raising.bytes_of (Raising.info_file i))) l)
  = option_map (fun i => Member (Raising.info_name i)
                                (Raising.bytes_of (Raising.info_file i)))
               (find (fun i => text_eqb (Raising.info_name i) t) l).
Proof.
  induction l as [|i l IH]; [reflexivity|].
  cbn [map find name]. now destruct (text_eqb (Raising.info_name i) t).
Qed.

(** What a file object reads is what [read] gives on the members. *)
Lemma read_members (tf : Raising.tarfile) (t : text) (bytes : list byte) :
  Raising.extractfile tf t = Ok (Some bytes) ->
  read (Raising.members tf) t = bytes.
Proof.
  unfold Raising.extractfile, read, Raising.members.
  rewrite <- map_rev, find_members.
  destruct (find _ (rev tf)) as [i|]; [|discriminate].
  cbn [option_map data].
  destruct (Raising.info_file i); try discriminate.
  intros H. now injection H.
Qed.


Lemma read_one_file (tf : Raising.tarfile) (st : option text * dict)
      (t : text) (bytes : list byte) :
  Raising.extractfile tf t = Ok (Some bytes) ->
  Raising.read_one tf st t = Ok (read_one (Raising.members tf) st t).
Proof.
  intros H. unfold Raising.read_one, read_one.
  rewrite H, (read_members _ _ H). reflexivity.
Qed.

Lemma read_from_readable (tf : Raising.tarfile) (l : list text) :
  forallb (fun t => match Raising.extractfile tf t with
                    | Ok (Some _) => true
                    | _ => false
                    end) l = true ->
  forall st,
    Raising.read_from tf l st
    = Ok (fold_left (read_one (Raising.members tf)) l st).
Proof.
  induction l as [|t l IH]; intros H st; [reflexivity|].
  cbn [forallb] in H. apply andb_true_iff in H as [Ht H].
  cbn [Raising.read_from fold_left].
  destruct (Raising.extractfile tf t) as [[bytes|]| | |] eqn:E;
    try discriminate.
  rewrite (read_one_file _ _ _ E). cbn [Raising.bind]. now apply IH.
Qed.


Lemma tex_readable (tf : Raising.tarfile) :
  readable tf = true ->
  Raising.tex (Some tf) = Ok (tex (Some (Raising.members tf))).
Proof.
  unfold readable. intros H. unfold Raising.tex, tex.
  destruct (length (tex_files_of (Raising.members tf)) =? 0);
    [reflexivity|].
  unfold Raising.read_all. rewrite read_from_readable by assumption.
  cbn [Raising.bind]. unfold read_all.
  now destruct (fst _).
Qed.


Lemma members_regular (tar : archive) : Raising.members (regular tar) = tar.
Proof.
  unfold Raising.members, regular. rewrite map_map.
  rewrite <- (map_id tar) at 2. apply map_ext. now intros [n d].
Qed.






(** X4.  With exactly one name that ends with [.tex] and none that
    ends with [.bbl]: when that member can be read it is the main
    file, and the entry [all] is its content with the included files
    put in; when [extractfile] gives [None] for it, [tex] raises
    [AttributeError]; when [extractfile] raises [KeyError], so does
    [tex]. *)
Theorem X4_single_tex_is_main (tf : Raising.tarfile) (t : text) :
  tex_files_of (Raising.members tf) = [t] ->
  bbl_file_of (Raising.members tf) = [] ->
  (forall bytes,
      Raising.extractfile tf t = Ok (Some bytes) ->
      main_tex_of (Raising.members tf) = Some t
      /\ exists d,
          Raising.tex (Some tf) = Ok (Some d)
          /\ get d (T "all")
             = Some (flatten d (strip (decode_ignore bytes))))
  /\ (Raising.extractfile tf t = Ok None ->
      Raising.tex (Some tf) = AttributeError)
  /\ (Raising.extractfile tf t = KeyError ->
      Raising.tex (Some tf) = KeyError).
Proof.
  intros Ht Hb. repeat apply conj.
  - intros bytes E.
    destruct (single_tex_main (Raising.members tf) Ht Hb)
      as (Hm & d & Hd & Ha).
    split; [assumption|]. exists d. split.
    + rewrite tex_readable; [now rewrite Hd|].
      unfold readable. rewrite Ht. cbn [forallb]. now rewrite E.
    + rewrite Ha. unfold content_of. now rewrite (read_members _ _ E).
  - intros E. unfold Raising.tex. rewrite Ht. cbn [length Nat.eqb].
    unfold Raising.read_all. cbn [Raising.read_from].
    unfold Raising.read_one. now rewrite E.
  - intros E. unfold Raising.tex. rewrite Ht. cbn [length Nat.eqb].
    unfold Raising.read_all. cbn [Raising.read_from].
    unfold Raising.read_one. now rewrite E.
Qed.

Lemma X4_single_tex_is_main_witness :
  (forall bytes,
      Raising.extractfile (regular single_tex) (T "paper.tex")
      = Ok (Some bytes) ->
      main_tex_of (Raising.members (regular single_tex))
      = Some (T "paper.tex")
      /\ exists d,
          Raising.tex (Some (regular single_tex)) = Ok (Some d)
          /\ get d (T "all")
             = Some (flatten d (strip (decode_ignore bytes))))
  /\ (Raising.extractfile (regular single_tex) (T "paper.tex") = Ok None ->
      Raising.tex (Some (regular single_tex)) = AttributeError)
  /\ (Raising.extractfile (regular single_tex) (T "paper.tex") = KeyError ->
      Raising.tex (Some (regular single_tex)) = KeyError).
Proof.
  apply (@X4_single_tex_is_main (regular single_tex) (T "paper.tex"));
    vm_compute; reflexivity.
Defined.





End Unreadable.
